(** * Andersen's points-to analysis: the node factory (NodeFactory.cpp)

    A shallow embedding of [AndersNodeFactory]: the node table with its five
    reserved nodes, the four creation calls with their reverse maps, the
    resolution of constant pointers to value and object nodes, and the
    computation that turns a byte offset into a field number.

    Conventions.
    - [unsigned] is a 32-bit integer: a [Z] kept in range by [wrap32].
      [uint64_t] and [size_t] are 64 bits wide ([wrap64]).
    - A pointer to an LLVM object is its address, a [ptr]; [nullptr] is 0.
    - [assert] is enabled: a failing assertion aborts the run, and so does
      [llvm_unreachable].
    - [errs()] is a list of diagnostics, threaded through the computations
      that print. *)

From Stdlib Require Import ZArith Lia.
From stdpp Require Import base option list gmap strings.

Local Open Scope Z_scope.

(** ** Machine integers *)

Definition wrap32 (z : Z) : Z := z mod 2 ^ 32.
Definition wrap64 (z : Z) : Z := z mod 2 ^ 64.

(** ** The LLVM values the factory looks at *)

Abbreviation ptr := N (only parsing).
Definition nullptr : ptr := 0%N.

(** A structure type is an object of the LLVM context, known by its
    identity; its element types are looked up there. *)
Abbreviation StructId := N (only parsing).

Inductive llvmType :=
| IntegerTy (bits : N)
| FloatTy
| PointerTy (pointee : llvmType)
| ArrayTy (elem : llvmType) (num : N)
| VectorTy (elem : llvmType) (num : N)
| StructTy (id : StructId)
| OtherTy.

Definition isPointerTy (t : llvmType) : bool :=
  match t with PointerTy _ => true | _ => false end.

Definition isStructTy (t : llvmType) : bool :=
  match t with StructTy _ => true | _ => false end.

Definition isArrayTy (t : llvmType) : bool :=
  match t with ArrayTy _ _ => true | _ => false end.

Inductive Opcode :=
| GetElementPtr
| IntToPtr
| PtrToInt
| BitCast
| OtherOpcode (code : N).

(** [llvm::Constant] and the subclasses told apart by [isa] and [dyn_cast]
    in this file.  Every value carries its type, as [llvm::Value] does. *)
#[warnings="-register-all"]
Inductive Constant :=
| ConstantPointerNull (ty : llvmType)
| UndefValue (ty : llvmType)
| GlobalValue (addr : ptr) (ty : llvmType)
| ConstantInt (ty : llvmType) (v : Z)
| ConstantExpr (opcode : Opcode) (ty : llvmType) (ops : list Constant)
| OtherConstant (ty : llvmType).

(** [llvm::Value]: a constant, or anything else (instruction, argument),
    of which only the address and the type matter here. *)
Inductive Value :=
| VConstant (c : Constant)
| VNonConstant (addr : ptr) (ty : llvmType).

Definition Constant_getType (c : Constant) : llvmType :=
  match c with
  | ConstantPointerNull ty | UndefValue ty | GlobalValue _ ty
  | ConstantInt ty _ | ConstantExpr _ ty _ | OtherConstant ty => ty
  end.

Definition getType (v : Value) : llvmType :=
  match v with
  | VConstant c => Constant_getType c
  | VNonConstant _ ty => ty
  end.

Definition isConstantInt (c : Constant) : bool :=
  match c with ConstantInt _ _ => true | _ => false end.

(** LLVM's rule for the type of a cast constant expression, as enforced by
    [ConstantExpr::getPtrToInt]: the result of a pointer-to-integer cast is
    an integer, or a vector of integers. *)
Definition isIntOrIntVectorTy (t : llvmType) : bool :=
  match t with
  | IntegerTy _ | VectorTy (IntegerTy _) _ => true
  | _ => false
  end.

(** ** The layout oracle

    [llvm::DataLayout], [llvm::StructLayout] and the struct-layout pre-pass
    ([StructAnalyzer], [StructInfo]) are collaborators; they are taken as
    records of functions. *)

Record StructLayout := {
  getElementContainingOffset : Z -> Z;
  getElementOffset : Z -> Z
}.

Record DataLayout := {
  getTypeAllocSize : llvmType -> Z;
  getStructLayout : StructId -> StructLayout;
  getIndexedOffset : llvmType -> list Constant -> Z
}.

Record StructInfo := {
  getOffset : Z -> Z
}.

Record StructAnalyzer := {
  getStructInfo : StructId -> option StructInfo
}.

(** ** Aborts, diagnostics and the monad of the printing computations *)

(** How a run ends early.  [AssertionFailed] is a failed [assert] and
    [Unreachable] is [llvm_unreachable].  [DivisionByZero] ([offset %= size]
    with a size of 0), [NullDereference] (a null [structAnalyzer]) and
    [OperandOutOfRange] (an operand or element index that does not exist)
    are undefined behaviour in the source.  [OutOfFuel] belongs to the
    embedding only: the bound given to a loop or recursion was too small. *)
Inductive abort :=
| AssertionFailed (msg : string)
| Unreachable (msg : option string)
| DivisionByZero
| NullDereference
| OperandOutOfRange
| OutOfFuel.

Inductive outcome (A : Type) :=
| Ok (a : A)
| Abort (e : abort).
Arguments Ok {A} a.
Arguments Abort {A} e.

Inductive diag :=
| NotYetHandled (ce : Constant)
| GEPIntoMiddleOfField.

Definition M (A : Type) : Type := list diag -> outcome A * list diag.

#[export] Instance M_ret : MRet M := fun A a s => (Ok a, s).

#[export] Instance M_bind : MBind M := fun A B k m s =>
  match m s with
  | (Ok a, s') => k a s'
  | (Abort e, s') => (Abort e, s')
  end.

Definition raise {A : Type} (e : abort) : M A := fun s => (Abort e, s).

Definition errs_print (d : diag) : M unit := fun s => (Ok tt, s ++ [d]).

Definition assert (b : bool) (msg : string) : M unit :=
  if b then mret tt else raise (AssertionFailed msg).

(** ** Nodes and the factory *)

Abbreviation NodeIndex := Z (only parsing).

Inductive NodeType := VALUE_NODE | OBJ_NODE.

Record AndersNode := mkAndersNode {
  type : NodeType;
  idx : NodeIndex;
  value : ptr
}.

Record AndersNodeFactory := mkFactory {
  dataLayout : option DataLayout;
  structAnalyzer : option StructAnalyzer;
  nodes : list AndersNode;
  valueNodeMap : gmap ptr NodeIndex;
  objNodeMap : gmap ptr NodeIndex;
  returnMap : gmap ptr NodeIndex;
  varargMap : gmap ptr NodeIndex
}.

Definition push_back (n : AndersNode) (f : AndersNodeFactory) : AndersNodeFactory :=
  mkFactory (dataLayout f) (structAnalyzer f) (nodes f ++ [n])
            (valueNodeMap f) (objNodeMap f) (returnMap f) (varargMap f).

Definition set_valueNodeMap (m : gmap ptr NodeIndex) (f : AndersNodeFactory) :=
  mkFactory (dataLayout f) (structAnalyzer f) (nodes f)
            m (objNodeMap f) (returnMap f) (varargMap f).

Definition set_objNodeMap (m : gmap ptr NodeIndex) (f : AndersNodeFactory) :=
  mkFactory (dataLayout f) (structAnalyzer f) (nodes f)
            (valueNodeMap f) m (returnMap f) (varargMap f).

Definition set_returnMap (m : gmap ptr NodeIndex) (f : AndersNodeFactory) :=
  mkFactory (dataLayout f) (structAnalyzer f) (nodes f)
            (valueNodeMap f) (objNodeMap f) m (varargMap f).

Definition set_varargMap (m : gmap ptr NodeIndex) (f : AndersNodeFactory) :=
  mkFactory (dataLayout f) (structAnalyzer f) (nodes f)
            (valueNodeMap f) (objNodeMap f) (returnMap f) m.

Definition setDataLayout (dl : DataLayout) (f : AndersNodeFactory) :=
  mkFactory (Some dl) (structAnalyzer f) (nodes f)
            (valueNodeMap f) (objNodeMap f) (returnMap f) (varargMap f).

Definition setStructAnalyzer (sa : StructAnalyzer) (f : AndersNodeFactory) :=
  mkFactory (dataLayout f) (Some sa) (nodes f)
            (valueNodeMap f) (objNodeMap f) (returnMap f) (varargMap f).

(** [nodes.size()] is a [size_t]; storing it in an [unsigned] keeps its low
    32 bits. *)
Definition nodes_size (f : AndersNodeFactory) : Z := Z.of_nat (length (nodes f)).

(** The constructor: the five reserved nodes, no data layout, empty maps.
    The two-argument node constructor leaves the origin entity empty. *)
Definition AndersNodeFactory_new : outcome AndersNodeFactory :=
  let f := mkFactory None None [] ∅ ∅ ∅ ∅ in
  let f := push_back (mkAndersNode VALUE_NODE 0 nullptr) f in
  let f := push_back (mkAndersNode OBJ_NODE 1 nullptr) f in
  let f := push_back (mkAndersNode VALUE_NODE 2 nullptr) f in
  let f := push_back (mkAndersNode OBJ_NODE 3 nullptr) f in
  let f := push_back (mkAndersNode VALUE_NODE 4 nullptr) f in
  if nodes_size f =? 5 then Ok f
  else Abort (AssertionFailed "nodes.size() == 5").

Definition createValueNode (val : ptr) (f : AndersNodeFactory)
  : outcome (NodeIndex * AndersNodeFactory) :=
  let nextIdx := wrap32 (nodes_size f) in
  let f := push_back (mkAndersNode VALUE_NODE nextIdx val) f in
  if bool_decide (val ≠ nullptr) then
    match valueNodeMap f !! val with
    | Some _ => Abort (AssertionFailed "Trying to insert two mappings to revValueNodeMap!")
    | None => Ok (nextIdx, set_valueNodeMap (<[val := nextIdx]> (valueNodeMap f)) f)
    end
  else Ok (nextIdx, f).

Definition createObjectNode (val : ptr) (f : AndersNodeFactory)
  : outcome (NodeIndex * AndersNodeFactory) :=
  let nextIdx := wrap32 (nodes_size f) in
  let f := push_back (mkAndersNode OBJ_NODE nextIdx val) f in
  if bool_decide (val ≠ nullptr) then
    match objNodeMap f !! val with
    | Some _ => Abort (AssertionFailed "Trying to insert two mappings to revObjNodeMap!")
    | None => Ok (nextIdx, set_objNodeMap (<[val := nextIdx]> (objNodeMap f)) f)
    end
  else Ok (nextIdx, f).

Definition createReturnNode (fn : ptr) (f : AndersNodeFactory)
  : outcome (NodeIndex * AndersNodeFactory) :=
  let nextIdx := wrap32 (nodes_size f) in
  let f := push_back (mkAndersNode VALUE_NODE nextIdx fn) f in
  match returnMap f !! fn with
  | Some _ => Abort (AssertionFailed "Trying to insert two mappings to returnMap!")
  | None => Ok (nextIdx, set_returnMap (<[fn := nextIdx]> (returnMap f)) f)
  end.

Definition createVarargNode (fn : ptr) (f : AndersNodeFactory)
  : outcome (NodeIndex * AndersNodeFactory) :=
  let nextIdx := wrap32 (nodes_size f) in
  let f := push_back (mkAndersNode VALUE_NODE nextIdx fn) f in
  match varargMap f !! fn with
  | Some _ => Abort (AssertionFailed "Trying to insert two mappings to varargMap!")
  | None => Ok (nextIdx, set_varargMap (<[fn := nextIdx]> (varargMap f)) f)
  end.

(** A creation call, and a sequence of them run in order; the run stops at
    the first failed assertion. *)
Inductive call :=
| CreateValue (val : ptr)
| CreateObject (val : ptr)
| CreateReturn (fn : ptr)
| CreateVararg (fn : ptr).

Definition do_call (c : call) (f : AndersNodeFactory)
  : outcome (NodeIndex * AndersNodeFactory) :=
  match c with
  | CreateValue v => createValueNode v f
  | CreateObject v => createObjectNode v f
  | CreateReturn fn => createReturnNode fn f
  | CreateVararg fn => createVarargNode fn f
  end.

Definition call_kind (c : call) : NodeType :=
  match c with
  | CreateObject _ => OBJ_NODE
  | _ => VALUE_NODE
  end.

Definition call_entity (c : call) : ptr :=
  match c with
  | CreateValue v | CreateObject v | CreateReturn v | CreateVararg v => v
  end.

Fixpoint run (cs : list call) (f : AndersNodeFactory)
  : outcome (list NodeIndex * AndersNodeFactory) :=
  match cs with
  | [] => Ok ([], f)
  | c :: cs' =>
      match do_call c f with
      | Abort e => Abort e
      | Ok (i, f') =>
          match run cs' f' with
          | Abort e => Abort e
          | Ok (rest, f'') => Ok (i :: rest, f'')
          end
      end
  end.

(** ** The reserved nodes and the offset node *)

(** Modelled from the spec: the accessor [getUniversalPtrNode] is declared
    in NodeFactory.h, which is not among the sources; the Universal Value
    node is node 0, as the constructor's comments also say. *)
Definition getUniversalPtrNode : NodeIndex := 0.

(** Modelled from the spec: the accessor [getUniversalObjNode] of the absent
    NodeFactory.h; the Universal Object node is node 1. *)
Definition getUniversalObjNode : NodeIndex := 1.

(** Modelled from the spec: the accessor [getNullPtrNode] of the absent
    NodeFactory.h; the Null Value node is node 2. *)
Definition getNullPtrNode : NodeIndex := 2.

(** Modelled from the spec: the accessor [getNullObjectNode] of the absent
    NodeFactory.h; the Null Object node is node 3. *)
Definition getNullObjectNode : NodeIndex := 3.

(** Modelled from the spec: the accessor [getIntPtrNode] of the absent
    NodeFactory.h; the Int Value node is node 4. *)
Definition getIntPtrNode : NodeIndex := 4.

(** Modelled from the spec: [getOffsetObjectNode] of the absent
    NodeFactory.h; a sub-object is addressed as base index plus field
    number. *)
Definition getOffsetObjectNode (n : NodeIndex) (offset : Z) : NodeIndex :=
  n + offset.

(** ** Resolution of constants and of byte offsets *)

Section NodeFactory.

(** [InvalidIndex] is a constant of the absent NodeFactory.h. *)
Variable InvalidIndex : NodeIndex.

(** [StructType::getElementType]: the element types of each structure. *)
Variable structElements : StructId -> list llvmType.

(** [Value::stripPointerCasts] and [llvm::GetUnderlyingObject], of LLVM. *)
Variable stripPointerCasts : Value -> Value.
Variable GetUnderlyingObject : Value -> Value.

Definition valueNodeMap_find (f : AndersNodeFactory) (val : ptr) : NodeIndex :=
  match valueNodeMap f !! val with
  | None => InvalidIndex
  | Some i => i
  end.

Definition objNodeMap_find (f : AndersNodeFactory) (val : ptr) : NodeIndex :=
  match objNodeMap f !! val with
  | None => InvalidIndex
  | Some i => i
  end.

(** In the [GlobalValue] case the source calls [getValueNodeFor], which for
    a global value is the map lookup ([getValueNodeFor_GlobalValue]). *)
Fixpoint getValueNodeForConstant (f : AndersNodeFactory) (c : Constant)
  {struct c} : M NodeIndex :=
  assert (isPointerTy (Constant_getType c)) "Not a constant pointer!" ;;
  match c with
  | ConstantPointerNull _ | UndefValue _ => mret getNullPtrNode
  | GlobalValue gv _ => mret (valueNodeMap_find f gv)
  | ConstantExpr opcode _ ops =>
      match opcode with
      | GetElementPtr =>
          assert false "This is wrong: avoid getting here!" ;;
          match ops with
          | op0 :: _ => getValueNodeForConstant f op0
          | [] => raise OperandOutOfRange
          end
      | IntToPtr => mret getUniversalPtrNode
      | PtrToInt => mret getIntPtrNode
      | BitCast =>
          match ops with
          | op0 :: _ => getValueNodeForConstant f op0
          | [] => raise OperandOutOfRange
          end
      | OtherOpcode _ =>
          errs_print (NotYetHandled c) ;;
          raise (Unreachable None)
      end
  | _ => raise (Unreachable (Some "Unknown constant pointer!"))
  end.

(** A null [Value*] is [VNonConstant nullptr]: [dyn_cast<Constant>] asserts
    on it before anything is looked up. *)
Definition getValueNodeFor (f : AndersNodeFactory) (val : Value) : M NodeIndex :=
  match val with
  | VConstant (GlobalValue gv _) => mret (valueNodeMap_find f gv)
  | VConstant c => getValueNodeForConstant f c
  | VNonConstant addr _ =>
      assert (bool_decide (addr ≠ nullptr)) "isa<> used on a null pointer" ;;
      mret (valueNodeMap_find f addr)
  end.

Definition getReturnNodeFor (f : AndersNodeFactory) (fn : ptr) : NodeIndex :=
  match returnMap f !! fn with
  | None => InvalidIndex
  | Some i => i
  end.

Definition getVarargNodeFor (f : AndersNodeFactory) (fn : ptr) : NodeIndex :=
  match varargMap f !! fn with
  | None => InvalidIndex
  | Some i => i
  end.

(** *** Byte offset of a constant GEP

    [getGEPOffset] is local to the file and is only handed constant
    expressions.  The recursion goes through [stripPointerCasts], so it is
    bounded by [fuel]. *)
Fixpoint getGEPOffset (fuel : nat) (value : Constant) (dl : option DataLayout)
  : M Z :=
  match fuel with
  | O => raise OutOfFuel
  | S fuel' =>
      match value with
      | ConstantExpr GetElementPtr _ ops =>
          match dl with
          | None => raise (AssertionFailed "getGEPOffset receives a NULL dataLayout!")
          | Some layout =>
              match ops with
              | [] => raise OperandOutOfRange
              | pointerOperand :: indexOps =>
                  let offset := 0 in
                  offset ←
                    match stripPointerCasts (VConstant pointerOperand) with
                    | VConstant (ConstantExpr GetElementPtr ty' ops') =>
                        inner ← getGEPOffset fuel' (ConstantExpr GetElementPtr ty' ops') dl;
                        mret (wrap32 (offset + inner))
                    | _ => mret offset
                    end;
                  assert (forallb isConstantInt indexOps)
                         "getGEPOffset does not accept non-const GEP indices!" ;;
                  mret (wrap32 (offset
                        + getIndexedOffset layout (Constant_getType pointerOperand) indexOps))
              end
          end
      | _ => raise (AssertionFailed "getGEPOffset receives a non-gep value!")
      end
  end.

(** *** Byte offset to field number *)

(** The inner loop: array types are replaced by their element type. *)
Fixpoint collapseArray (t : llvmType) : llvmType :=
  match t with
  | ArrayTy elem _ => collapseArray elem
  | _ => t
  end.

(** The outer loop [while (offset > 0)], one unit of [fuel] per iteration.
    [ret] is the field number accumulated so far. *)
Fixpoint offsetToFieldNum_loop (fuel : nat) (layout : DataLayout)
    (analyzer : option StructAnalyzer)
    (trueElemType : llvmType) (offset ret : Z) : M Z :=
  if 0 <? offset then
    match fuel with
    | O => raise OutOfFuel
    | S fuel' =>
        let trueElemType := collapseArray trueElemType in
        let size := wrap64 (getTypeAllocSize layout trueElemType) in
        if size =? 0 then raise DivisionByZero else
        let offset := wrap32 (offset mod size) in
        match trueElemType with
        | StructTy stType =>
            let stLayout := getStructLayout layout stType in
            let idx := wrap32 (getElementContainingOffset stLayout offset) in
            match analyzer with
            | None => raise NullDereference
            | Some sa =>
                match getStructInfo sa stType with
                | None =>
                    raise (AssertionFailed "structInfoMap should have info for all structs!")
                | Some stInfo =>
                    let ret := wrap32 (ret + getOffset stInfo idx) in
                    let offset := wrap32 (offset - getElementOffset stLayout idx) in
                    match structElements stType !! Z.to_nat idx with
                    | None => raise OperandOutOfRange
                    | Some elemTy =>
                        offsetToFieldNum_loop fuel' layout analyzer elemTy offset ret
                    end
                end
            end
        | _ =>
            if negb (offset =? 0) then
              errs_print GEPIntoMiddleOfField ;;
              mret ret
            else offsetToFieldNum_loop fuel' layout analyzer trueElemType offset ret
        end
    end
  else mret ret.

Definition offsetToFieldNum (fuel : nat) (f : AndersNodeFactory)
    (p : Value) (offset : Z) : M Z :=
  assert (isPointerTy (getType p)) "Passing a non-ptr to offsetToFieldNum!" ;;
  match dataLayout f with
  | None => raise (AssertionFailed "DataLayout is NULL when calling offsetToFieldNum!")
  | Some layout =>
      match getType p with
      | PointerTy trueElemType =>
          offsetToFieldNum_loop fuel layout (structAnalyzer f) trueElemType offset 0
      | _ => raise (AssertionFailed "Passing a non-ptr to offsetToFieldNum!")
      end
  end.

Definition constGEPtoFieldNum (fuel : nat) (f : AndersNodeFactory)
    (expr : Constant) : M Z :=
  match expr with
  | ConstantExpr GetElementPtr _ _ =>
      offset ← getGEPOffset fuel expr (dataLayout f);
      offsetToFieldNum fuel f (GetUnderlyingObject (VConstant expr)) offset
  | _ => raise (AssertionFailed "constGEPtoVariable receives a non-gep expr!")
  end.

(** In the [GlobalValue] case the source calls [getObjectNodeFor], which for
    a global value is the map lookup ([getObjectNodeFor_GlobalValue]). *)
Fixpoint getObjectNodeForConstant (fuel : nat) (f : AndersNodeFactory)
    (c : Constant) {struct c} : M NodeIndex :=
  assert (isPointerTy (Constant_getType c)) "Not a constant pointer!" ;;
  match c with
  | ConstantPointerNull _ => mret getNullObjectNode
  | GlobalValue gv _ => mret (objNodeMap_find f gv)
  | ConstantExpr opcode _ ops =>
      match opcode with
      | GetElementPtr =>
          match ops with
          | [] => raise OperandOutOfRange
          | op0 :: _ =>
              baseNode ← getObjectNodeForConstant fuel f op0;
              if (baseNode =? getNullObjectNode) || (baseNode =? getUniversalObjNode)
              then mret baseNode
              else
                fieldNum ← constGEPtoFieldNum fuel f c;
                mret (getOffsetObjectNode baseNode fieldNum)
          end
      | IntToPtr => mret getUniversalObjNode
      | BitCast =>
          match ops with
          | op0 :: _ => getObjectNodeForConstant fuel f op0
          | [] => raise OperandOutOfRange
          end
      | _ =>
          errs_print (NotYetHandled c) ;;
          raise (Unreachable None)
      end
  | _ => raise (Unreachable (Some "Unknown constant pointer!"))
  end.

(** A null [Value*] aborts here as in [getValueNodeFor]. *)
Definition getObjectNodeFor (fuel : nat) (f : AndersNodeFactory) (val : Value)
  : M NodeIndex :=
  match val with
  | VConstant (GlobalValue gv _) => mret (objNodeMap_find f gv)
  | VConstant c => getObjectNodeForConstant fuel f c
  | VNonConstant addr _ =>
      assert (bool_decide (addr ≠ nullptr)) "isa<> used on a null pointer" ;;
      mret (objNodeMap_find f addr)
  end.

End NodeFactory.

(** * Vocabulary of the properties *)

(** The state the constructor builds. *)
Definition initial : AndersNodeFactory :=
  mkFactory None None
    [ mkAndersNode VALUE_NODE 0 nullptr;
      mkAndersNode OBJ_NODE 1 nullptr;
      mkAndersNode VALUE_NODE 2 nullptr;
      mkAndersNode OBJ_NODE 3 nullptr;
      mkAndersNode VALUE_NODE 4 nullptr ]
    ∅ ∅ ∅ ∅.

(** A call that records its entity in a reverse map: value and object
    creation do so for a non-empty entity, return and vararg creation
    always. *)
Definition call_registers (c : call) : Prop :=
  match c with
  | CreateValue v | CreateObject v => v ≠ nullptr
  | CreateReturn _ | CreateVararg _ => True
  end.

(** The entity of [c] is already in the map that [c] would fill. *)
Definition registered (c : call) (f : AndersNodeFactory) : Prop :=
  match c with
  | CreateValue v => v ≠ nullptr ∧ is_Some (valueNodeMap f !! v)
  | CreateObject v => v ≠ nullptr ∧ is_Some (objNodeMap f !! v)
  | CreateReturn fn => is_Some (returnMap f !! fn)
  | CreateVararg fn => is_Some (varargMap f !! fn)
  end.

(** The returned indices increase strictly in call order. *)
Definition strictly_increasing (l : list Z) : Prop :=
  ∀ (i j : nat) (a b : Z), (i < j)%nat → l !! i = Some a → l !! j = Some b → a < b.

(** Every node of the table stores its own position. *)
Definition table_indexed (f : AndersNodeFactory) : Prop :=
  ∀ (k : nat) (n : AndersNode), nodes f !! k = Some n → idx n = Z.of_nat k.

(** ** A concrete module: [%pair = type { i64, i64 }] and a global of that type *)

Definition i64 : llvmType := IntegerTy 64.
Definition pairId : N := 1%N.
Definition pairTy : llvmType := StructTy pairId.

Definition example_elements (st : N) : list llvmType :=
  if (st =? pairId)%N then [i64; i64] else [].

Definition example_structLayout : StructLayout := {|
  getElementContainingOffset := fun offset => if offset <? 8 then 0 else 1;
  getElementOffset := fun i => 8 * i
|}.

Definition example_layout : DataLayout := {|
  getTypeAllocSize := fun t =>
    match t with
    | StructTy _ => 16
    | IntegerTy bits => (Z.of_N bits + 7) / 8
    | ArrayTy _ _ => 32
    | _ => 8
    end;
  getStructLayout := fun _ => example_structLayout;
  getIndexedOffset := fun _ indices =>
    match indices with
    | [ConstantInt _ i] => 16 * i
    | [ConstantInt _ i; ConstantInt _ j] => 16 * i + 8 * j
    | _ => 0
    end
|}.

Definition example_analyzer : StructAnalyzer := {|
  getStructInfo := fun st =>
    if (st =? pairId)%N then Some {| getOffset := fun i => i |} else None
|}.

Definition isZeroIndex (c : Constant) : bool :=
  match c with ConstantInt _ 0 => true | _ => false end.

Fixpoint example_strip (c : Constant) : Constant :=
  match c with
  | ConstantExpr BitCast _ (p :: _) => example_strip p
  | ConstantExpr GetElementPtr _ (p :: indices) =>
      if forallb isZeroIndex indices then example_strip p else c
  | _ => c
  end.

Definition example_stripPointerCasts (v : Value) : Value :=
  match v with
  | VConstant c => VConstant (example_strip c)
  | _ => v
  end.

Fixpoint example_underlying (c : Constant) : Constant :=
  match c with
  | ConstantExpr BitCast _ (p :: _) => example_underlying p
  | ConstantExpr GetElementPtr _ (p :: _) => example_underlying p
  | _ => c
  end.

Definition example_GetUnderlyingObject (v : Value) : Value :=
  match v with
  | VConstant c => VConstant (example_underlying c)
  | _ => v
  end.

Definition example_InvalidIndex : Z := 2 ^ 32 - 1.

(** The global [@g : %pair*], at address 100. *)
Definition example_global : Constant := GlobalValue 100%N (PointerTy pairTy).

(** [getelementptr (%pair* @g, i32 0, i32 1)]: the second field of [@g]. *)
Definition example_gep : Constant :=
  ConstantExpr GetElementPtr (PointerTy i64)
    [example_global; ConstantInt (IntegerTy 32) 0; ConstantInt (IntegerTy 32) 1].

(** [ptrtoint (%pair* @g to i64)]. *)
Definition example_ptrtoint : Constant :=
  ConstantExpr PtrToInt i64 [example_global].

(** The factory after object identification of [@g]: a value node (5) and
    one object node per field (6 and 7). *)
Definition example_factory : AndersNodeFactory :=
  match run [CreateValue 100%N; CreateObject 100%N; CreateObject nullptr]
            (setStructAnalyzer example_analyzer (setDataLayout example_layout initial))
  with
  | Ok (_, f) => f
  | Abort _ => initial
  end.

(** ** A second module: [%flex = type { i64, [0 x i8] }]

    A structure that ends in an empty array: its fields lie at byte offsets
    0 and 8, and its allocation size is 8. *)

Definition flexId : N := 2%N.
Definition flexTy : llvmType := StructTy flexId.

Definition flex_elements (st : N) : list llvmType :=
  if (st =? flexId)%N then [i64; ArrayTy (IntegerTy 8) 0] else [].

Definition flex_layout : DataLayout := {|
  getTypeAllocSize := fun t =>
    match t with
    | StructTy _ => 8
    | IntegerTy bits => (Z.of_N bits + 7) / 8
    | ArrayTy _ _ => 0
    | _ => 8
    end;
  getStructLayout := fun _ => example_structLayout;
  getIndexedOffset := fun _ indices =>
    match indices with
    | [ConstantInt _ i] => 8 * i
    | [ConstantInt _ i; ConstantInt _ j] => 8 * i + 8 * j
    | _ => 0
    end
|}.

Definition flex_analyzer : StructAnalyzer := {|
  getStructInfo := fun st =>
    if (st =? flexId)%N then Some {| getOffset := fun i => i |} else None
|}.

(** The global [@h : %flex*], at address 500, and a factory that knows the
    layout of the module. *)
Definition flex_global : Constant := GlobalValue 500%N (PointerTy flexTy).

Definition flex_factory : AndersNodeFactory :=
  setStructAnalyzer flex_analyzer (setDataLayout flex_layout initial).

(** ** Vocabulary of the further properties *)

(** The four reverse maps of the factory. *)
Inductive mapName := ValueMap | ObjMap | ReturnMap | VarargMap.

#[export] Instance mapName_eq_dec : EqDecision mapName.
Proof. solve_decision. Defined.

Definition get_map (m : mapName) (f : AndersNodeFactory) : gmap N Z :=
  match m with
  | ValueMap => valueNodeMap f
  | ObjMap => objNodeMap f
  | ReturnMap => returnMap f
  | VarargMap => varargMap f
  end.

(** The kind of the nodes a map refers to. *)
Definition map_kind (m : mapName) : NodeType :=
  match m with
  | ObjMap => OBJ_NODE
  | _ => VALUE_NODE
  end.

(** The map and the key a creation call writes, if it writes one. *)
Definition call_key (c : call) : option (mapName * N) :=
  match c with
  | CreateValue v => if bool_decide (v ≠ nullptr) then Some (ValueMap, v) else None
  | CreateObject v => if bool_decide (v ≠ nullptr) then Some (ObjMap, v) else None
  | CreateReturn fn => Some (ReturnMap, fn)
  | CreateVararg fn => Some (VarargMap, fn)
  end.

(** The shape of a factory that creation calls keep: the reserved nodes
    are the first five, every node stores its position, and every map
    entry is the position, at least 5, of a node of the map's kind made for
    the entry's key. *)
Definition factory_wf (f : AndersNodeFactory) : Prop :=
  take 5 (nodes f) = nodes initial
  ∧ table_indexed f
  ∧ ∀ m e i, get_map m f !! e = Some i →
      5 <= i ∧ nodes f !! Z.to_nat i = Some (mkAndersNode (map_kind m) i e).

(** [c] wrapped in pointer bit-casts to the types [tys], outermost first. *)
Fixpoint bitcasts (tys : list llvmType) (c : Constant) : Constant :=
  match tys with
  | [] => c
  | ty :: tys' => ConstantExpr BitCast ty [bitcasts tys' c]
  end.

(** Nesting depth of structures by value, for a table of structures whose
    identifiers are ranked by [rank]. *)
Definition type_rank (rank : N -> nat) (t : llvmType) : nat :=
  match collapseArray t with
  | StructTy st => S (rank st)
  | _ => O
  end.

(** * Properties *)

(** ** Creation calls *)

Lemma wrap32_small z : 0 <= z < 2 ^ 32 → wrap32 z = z.
Proof. intros H. unfold wrap32. by apply Z.mod_small. Qed.

Lemma wrap32_range z : 0 <= wrap32 z < 2 ^ 32.
Proof. unfold wrap32. apply Z.mod_pos_bound. lia. Qed.

Ltac inv_ok :=
  repeat match goal with
  | H : Ok _ = Ok _ |- _ => inversion H; subst; clear H
  | H : Abort _ = Ok _ |- _ => discriminate H
  | H : context [bool_decide _] |- _ => case_bool_decide
  | H : context [match ?m !! ?k with _ => _ end] |- _ =>
      let E := fresh "E" in destruct (m !! k) eqn:E
  end.

Lemma do_call_spec c f i f' :
  do_call c f = Ok (i, f') →
  i = wrap32 (nodes_size f)
  ∧ nodes f' = nodes f ++ [mkAndersNode (call_kind c) i (call_entity c)]
  ∧ valueNodeMap f ⊆ valueNodeMap f'
  ∧ objNodeMap f ⊆ objNodeMap f'
  ∧ returnMap f ⊆ returnMap f'
  ∧ varargMap f ⊆ varargMap f'
  ∧ (call_registers c → registered c f').
Proof.
  destruct c; simpl;
    unfold createValueNode, createObjectNode, createReturnNode, createVarargNode;
    simpl; intros H; inv_ok; simpl;
    repeat split; try done; try (by apply insert_subseteq);
    try (intros _; by rewrite lookup_insert_eq);
    try (by rewrite lookup_insert_eq).
Qed.

Lemma registered_mono c f f' :
  valueNodeMap f ⊆ valueNodeMap f' →
  objNodeMap f ⊆ objNodeMap f' →
  returnMap f ⊆ returnMap f' →
  varargMap f ⊆ varargMap f' →
  registered c f → registered c f'.
Proof.
  intros Hv Ho Hr Ha. destruct c; simpl.
  - intros [? [x Hx]]; split; [done|]. exists x. by eapply lookup_weaken.
  - intros [? [x Hx]]; split; [done|]. exists x. by eapply lookup_weaken.
  - intros [x Hx]. exists x. by eapply lookup_weaken.
  - intros [x Hx]. exists x. by eapply lookup_weaken.
Qed.

Lemma registered_abort c f :
  registered c f → ∃ msg, do_call c f = Abort (AssertionFailed msg).
Proof.
  destruct c; simpl;
    unfold createValueNode, createObjectNode, createReturnNode, createVarargNode;
    simpl.
  - intros [Hn [x Hx]]. rewrite bool_decide_true by done. rewrite Hx. eauto.
  - intros [Hn [x Hx]]. rewrite bool_decide_true by done. rewrite Hx. eauto.
  - intros [x Hx]. rewrite Hx. eauto.
  - intros [x Hx]. rewrite Hx. eauto.
Qed.

Lemma run_cons_ok c cs f idxs f' :
  run (c :: cs) f = Ok (idxs, f') →
  ∃ i f1 rest, do_call c f = Ok (i, f1) ∧ run cs f1 = Ok (rest, f') ∧ idxs = i :: rest.
Proof.
  simpl. destruct (do_call c f) as [[i f1]|]; [|done].
  destruct (run cs f1) as [[rest f2]|] eqn:Hr; [|done].
  intros H; inversion H; subst. by exists i, f1, rest.
Qed.

(** What a successful run does to the table and to the maps. *)
Lemma run_spec cs : ∀ f idxs f',
  run cs f = Ok (idxs, f') →
  length idxs = length cs
  ∧ length (nodes f') = (length (nodes f) + length cs)%nat
  ∧ (∀ k n, nodes f !! k = Some n → nodes f' !! k = Some n)
  ∧ (∀ k c, cs !! k = Some c →
       idxs !! k = Some (wrap32 (nodes_size f + Z.of_nat k))
       ∧ nodes f' !! (length (nodes f) + k)%nat
         = Some (mkAndersNode (call_kind c) (wrap32 (nodes_size f + Z.of_nat k))
                              (call_entity c)))
  ∧ valueNodeMap f ⊆ valueNodeMap f'
  ∧ objNodeMap f ⊆ objNodeMap f'
  ∧ returnMap f ⊆ returnMap f'
  ∧ varargMap f ⊆ varargMap f'.
Proof.
  induction cs as [|c cs IH]; intros f idxs f' H.
  - simpl in H. inversion H; subst. rewrite Nat.add_0_r. by repeat split.
  - apply run_cons_ok in H as (i & f1 & rest & Hc & Hr & ->).
    apply do_call_spec in Hc as (Hi & Hn & Hv & Ho & Hret & Hva & _).
    apply IH in Hr as (Hl & Hlen & Hpre & Hk & Hv' & Ho' & Hret' & Hva').
    assert (Hsz : nodes_size f1 = nodes_size f + 1).
    { unfold nodes_size. rewrite Hn, length_app. simpl. lia. }
    split; [simpl; by rewrite Hl|].
    split; [rewrite Hlen, Hn, length_app; simpl; lia|].
    split; [intros k n Hkn; apply Hpre; rewrite Hn; by apply lookup_app_l_Some|].
    split; [|repeat split; by etrans].
    intros k c0 Hc0. destruct k as [|k]; simpl in Hc0.
    + inversion Hc0; subst c0. simpl. rewrite Nat.add_0_r, Z.add_0_r. split.
      * by rewrite Hi.
      * apply Hpre. rewrite Hn. rewrite lookup_app_r by lia.
        rewrite Nat.sub_diag. simpl. by rewrite Hi.
    + destruct (Hk k c0 Hc0) as [Hk1 Hk2]. split.
      * change ((i :: rest) !! S k) with (rest !! k). rewrite Hk1. do 2 f_equal. lia.
      * replace (length (nodes f) + S k)%nat with (length (nodes f1) + k)%nat
          by (rewrite Hn, length_app; simpl; lia).
        rewrite Hk2. do 3 f_equal. lia.
Qed.
Lemma initial_constructed : AndersNodeFactory_new = Ok initial.
Proof. reflexivity. Qed.

Lemma initial_indexed : table_indexed initial.
Proof.
  intros k n. unfold initial; simpl.
  do 5 (destruct k as [|k]; [intros [= <-]; reflexivity|]). done.
Qed.

Lemma strictly_increasing_NoDup l : strictly_increasing l → NoDup l.
Proof.
  intros Hs. apply NoDup_alt. intros i j x Hi Hj.
  destruct (Nat.lt_trichotomy i j) as [Hlt|[Heq|Hgt]]; [|done|].
  - specialize (Hs i j x x Hlt Hi Hj). lia.
  - specialize (Hs j i x x Hgt Hj Hi). lia.
Qed.

(** While the table has at most [2 ^ 32] entries, the [k]-th call of a run
    returns the size the table had before it. *)
Lemma run_index_exact cs f idxs f' k c :
  run cs f = Ok (idxs, f') →
  nodes_size f' <= 2 ^ 32 →
  cs !! k = Some c →
  idxs !! k = Some (nodes_size f + Z.of_nat k)
  ∧ nodes f' !! Z.to_nat (nodes_size f + Z.of_nat k)
    = Some (mkAndersNode (call_kind c) (nodes_size f + Z.of_nat k) (call_entity c)).
Proof.
  intros Hrun Hsz Hk.
  destruct (run_spec _ _ _ _ Hrun) as (_ & Hlen & _ & Hcs & _).
  destruct (Hcs k c Hk) as [H1 H2].
  apply lookup_lt_Some in Hk.
  assert (Hw : wrap32 (nodes_size f + Z.of_nat k) = nodes_size f + Z.of_nat k).
  { apply wrap32_small. unfold nodes_size in *. lia. }
  rewrite Hw in H1, H2. split; [done|].
  replace (Z.to_nat (nodes_size f + Z.of_nat k)) with (length (nodes f) + k)%nat
    by (unfold nodes_size; lia).
  done.
Qed.

Lemma run_replicate_null n : ∀ f,
  ∃ idxs f', run (replicate n (CreateValue nullptr)) f = Ok (idxs, f').
Proof.
  induction n as [|n IH]; intros f; simpl.
  - eauto.
  - unfold createValueNode. simpl.
    destruct (IH (push_back (mkAndersNode VALUE_NODE (wrap32 (nodes_size f)) nullptr) f))
      as (idxs & f' & ->).
    eauto.
Qed.

(** The run that fills the table up to [2 ^ 32] entries and adds one more:
    the last index handed out is 0 again. *)
Lemma wraparound_run :
  ∃ cs idxs f' (k : nat),
    run cs initial = Ok (idxs, f')
    ∧ idxs !! k = Some (2 ^ 32 - 1) ∧ idxs !! S k = Some 0.
Proof.
  pose (k := Z.to_nat (2 ^ 32 - 6)).
  assert (Hk : Z.of_nat k = 2 ^ 32 - 6) by (unfold k; apply Z2Nat.id; lia).
  clearbody k.
  destruct (run_replicate_null (S (S k)) initial) as (idxs & f' & Hrun).
  exists (replicate (S (S k)) (CreateValue nullptr)), idxs, f', k.
  split; [done|].
  destruct (run_spec _ _ _ _ Hrun) as (_ & _ & _ & Hcs & _).
  split.
  - destruct (Hcs k (CreateValue nullptr)) as [-> _].
    { apply lookup_replicate_2. lia. }
    f_equal. unfold wrap32, nodes_size, initial; simpl length.
    replace (Z.of_nat 5 + Z.of_nat k) with (2 ^ 32 - 1) by lia. reflexivity.
  - destruct (Hcs (S k) (CreateValue nullptr)) as [-> _].
    { apply lookup_replicate_2. lia. }
    f_equal. unfold wrap32, nodes_size, initial; simpl length.
    replace (Z.of_nat 5 + Z.of_nat (S k)) with (2 ^ 32) by lia. reflexivity.
Qed.
(** C1 (amended).  The constructor builds exactly the five reserved nodes,
    with indices 0 to 4 and kinds VALUE, OBJECT, VALUE, OBJECT, VALUE.
    After any successful run of creation calls from there the five are still
    the first five entries of the table, and as long as the table holds at
    most [2 ^ 32] nodes every index the run handed out is at least 5. *)
Theorem reserved_nodes (cs : list call) (idxs : list Z) (f' : AndersNodeFactory) :
  run cs initial = Ok (idxs, f') →
  nodes_size f' <= 2 ^ 32 →
  AndersNodeFactory_new = Ok initial
  ∧ map (λ n, (idx n, type n)) (nodes initial)
    = [(0, VALUE_NODE); (1, OBJ_NODE); (2, VALUE_NODE); (3, OBJ_NODE); (4, VALUE_NODE)]
  ∧ length (nodes initial) = 5%nat
  ∧ take 5 (nodes f') = nodes initial
  ∧ Forall (λ i, 5 <= i) idxs.
Proof.
  intros Hrun Hsz. split; [reflexivity|]. split; [reflexivity|].
  split; [reflexivity|].
  destruct (run_spec _ _ _ _ Hrun) as (Hl & Hlen & Hpre & _).
  split.
  - apply list_eq. intros k. destruct (decide (k < 5)%nat) as [Hk|Hk].
    + rewrite lookup_take_lt by done.
      destruct (nodes initial !! k) as [n|] eqn:E.
      * by apply Hpre.
      * apply lookup_ge_None in E. simpl in E. lia.
    + rewrite lookup_take_ge by lia. symmetry. apply lookup_ge_None. simpl. lia.
  - apply Forall_lookup. intros k i Hi.
    assert (Hk : (k < length cs)%nat) by (rewrite <- Hl; by eapply lookup_lt_Some).
    apply lookup_lt_is_Some in Hk as [c Hc].
    destruct (run_index_exact _ _ _ _ _ _ Hrun Hsz Hc) as [Hi' _].
    rewrite Hi in Hi'. inversion Hi'; subst. unfold nodes_size. simpl. lia.
Qed.

Lemma reserved_nodes_witness :
  AndersNodeFactory_new = Ok initial
  ∧ map (λ n, (idx n, type n)) (nodes initial)
    = [(0, VALUE_NODE); (1, OBJ_NODE); (2, VALUE_NODE); (3, OBJ_NODE); (4, VALUE_NODE)]
  ∧ length (nodes initial) = 5%nat
  ∧ take 5 (nodes (push_back (mkAndersNode OBJ_NODE 6 nullptr)
       (set_valueNodeMap {[ 9%N := 5 ]}
          (push_back (mkAndersNode VALUE_NODE 5 9%N) initial)))) = nodes initial
  ∧ Forall (λ i, 5 <= i) [5; 6].
Proof.
  apply (reserved_nodes [CreateValue 9%N; CreateObject nullptr]).
  - reflexivity.
  - vm_compute. discriminate.
Defined.

(** The claim C1 without the bound on the table fails: a run of creation
    calls from the constructed factory can hand out index 0 again. *)
Lemma reserved_indices_reused :
  ¬ (∀ cs idxs f', run cs initial = Ok (idxs, f') → Forall (λ i, 5 <= i) idxs).
Proof.
  intros H. destruct wraparound_run as (cs & idxs & f' & k & Hrun & _ & H0).
  specialize (H cs idxs f' Hrun).
  rewrite Forall_lookup in H. specialize (H _ _ H0). lia.
Qed.
(** C2 (amended).  For every interleaving of the four creation calls that
    runs without a contract violation and leaves at most [2 ^ 32] nodes in
    the table: the returned indices increase strictly in call order, none is
    returned twice, every call appends exactly one node, of the kind of the
    call and for its entity, at the position equal to the index it returns
    and stores, and a table whose nodes all store their position stays
    so. *)
Theorem creation_indices_increase (cs : list call) (f f' : AndersNodeFactory)
    (idxs : list Z) :
  run cs f = Ok (idxs, f') →
  nodes_size f' <= 2 ^ 32 →
  strictly_increasing idxs
  ∧ NoDup idxs
  ∧ length idxs = length cs
  ∧ length (nodes f') = (length (nodes f) + length cs)%nat
  ∧ (∀ k c, cs !! k = Some c →
       ∃ i, idxs !! k = Some i
            ∧ i = nodes_size f + Z.of_nat k
            ∧ nodes f' !! Z.to_nat i
              = Some (mkAndersNode (call_kind c) i (call_entity c)))
  ∧ (table_indexed f → table_indexed f').
Proof.
  intros Hrun Hsz.
  destruct (run_spec _ _ _ _ Hrun) as (Hl & Hlen & Hpre & Hcs & _).
  assert (Hexact : ∀ k i, idxs !! k = Some i → i = nodes_size f + Z.of_nat k).
  { intros k i Hi.
    assert (Hk : (k < length cs)%nat) by (rewrite <- Hl; by eapply lookup_lt_Some).
    apply lookup_lt_is_Some in Hk as [c Hc].
    destruct (run_index_exact _ _ _ _ _ _ Hrun Hsz Hc) as [Hi' _]. congruence. }
  assert (Hinc : strictly_increasing idxs).
  { intros i j a b Hij Ha Hb. apply Hexact in Ha, Hb. lia. }
  split; [done|]. split; [by apply strictly_increasing_NoDup|].
  split; [done|]. split; [done|]. split.
  - intros k c Hc.
    destruct (run_index_exact _ _ _ _ _ _ Hrun Hsz Hc) as [H1 H2]. eauto.
  - intros Hidx k n Hn.
    destruct (decide (k < length (nodes f))%nat) as [Hk|Hk].
    + apply lookup_lt_is_Some in Hk as [n' Hn'].
      rewrite (Hpre _ _ Hn') in Hn. inversion Hn; subst. by apply Hidx.
    + assert (Hk' : (k - length (nodes f) < length cs)%nat).
      { apply lookup_lt_Some in Hn. lia. }
      apply lookup_lt_is_Some in Hk' as [c Hc].
      destruct (run_index_exact _ _ _ _ _ _ Hrun Hsz Hc) as [_ H2].
      replace (Z.to_nat (nodes_size f + Z.of_nat (k - length (nodes f)))) with k in H2
        by (unfold nodes_size; lia).
      rewrite Hn in H2. inversion H2; subst. simpl. unfold nodes_size. lia.
Qed.

Lemma creation_indices_increase_witness :
  strictly_increasing [5; 6; 7; 8; 9]
  ∧ NoDup [5; 6; 7; 8; 9].
Proof.
  pose proof (creation_indices_increase
    [CreateValue 11%N; CreateReturn 12%N; CreateObject 11%N;
     CreateVararg 12%N; CreateValue nullptr]
    initial _ _ eq_refl) as H.
  destruct H as (H1 & H2 & _).
  - vm_compute. discriminate.
  - split; assumption.
Defined.

(** The claim C2 without the bound on the table fails: the run that fills
    the table with [2 ^ 32] nodes and creates one more returns
    [2 ^ 32 - 1] and then 0. *)
Lemma creation_indices_wrap :
  ¬ (∀ cs idxs f', run cs initial = Ok (idxs, f') → strictly_increasing idxs).
Proof.
  intros H. destruct wraparound_run as (cs & idxs & f' & k & Hrun & Hk & H0).
  specialize (H cs idxs f' Hrun k (S k) _ _ (Nat.lt_succ_diag_r k) Hk H0). lia.
Qed.

(** C3.  Once a creation call has registered its entity (a non-empty entity
    for value and object nodes, any function for return and vararg nodes),
    the same call made again, after any further successful creation calls,
    fails with a contract violation instead of returning an index. *)
Theorem duplicate_creation_fails (c : call) (cs : list call)
    (f f1 f2 : AndersNodeFactory) (i : Z) (idxs : list Z) :
  call_registers c →
  do_call c f = Ok (i, f1) →
  run cs f1 = Ok (idxs, f2) →
  ∃ msg, do_call c f2 = Abort (AssertionFailed msg).
Proof.
  intros Hreg Hc Hrun.
  apply do_call_spec in Hc as (_ & _ & _ & _ & _ & _ & Hr).
  destruct (run_spec _ _ _ _ Hrun) as (_ & _ & _ & _ & Hv & Ho & Hret & Hva).
  apply registered_abort. eapply registered_mono; eauto.
Qed.

Lemma duplicate_creation_fails_witness :
  ∃ msg,
    createValueNode 11%N
      (set_objNodeMap {[ 11%N := 6 ]}
         (push_back (mkAndersNode OBJ_NODE 6 11%N)
            (set_valueNodeMap {[ 11%N := 5 ]}
               (push_back (mkAndersNode VALUE_NODE 5 11%N) initial))))
    = Abort (AssertionFailed msg).
Proof.
  eapply (duplicate_creation_fails (CreateValue 11%N) [CreateObject 11%N] initial).
  - simpl. discriminate.
  - reflexivity.
  - reflexivity.
Defined.
(** ** Resolution of constants *)

Ltac run_M :=
  unfold mbind, M_bind, mret, M_ret, assert, raise, errs_print; simpl.

Section ConstantResolution.

Variable InvalidIndex : Z.
Variable structElements : N -> list llvmType.
Variable stripPointerCasts : Value -> Value.
Variable GetUnderlyingObject : Value -> Value.

Local Abbreviation valueNode := (getValueNodeForConstant InvalidIndex).
Local Abbreviation objectNode :=
  (getObjectNodeForConstant InvalidIndex structElements stripPointerCasts
                            GetUnderlyingObject).
Local Abbreviation fieldNum :=
  (constGEPtoFieldNum structElements stripPointerCasts GetUnderlyingObject).

(** The entry assertion of both resolvers. *)
Lemma getValueNodeForConstant_not_pointer f c log :
  isPointerTy (Constant_getType c) = false →
  valueNode f c log = (Abort (AssertionFailed "Not a constant pointer!"), log).
Proof. intros H. destruct c; simpl in *; run_M; by rewrite H. Qed.

Lemma getObjectNodeForConstant_not_pointer fuel f c log :
  isPointerTy (Constant_getType c) = false →
  objectNode fuel f c log = (Abort (AssertionFailed "Not a constant pointer!"), log).
Proof. intros H. destruct c; simpl in *; run_M; by rewrite H. Qed.

(** For a global value [getValueNodeFor] and [getObjectNodeFor] are the map
    lookups that the constant resolvers inline. *)
Lemma getValueNodeFor_GlobalValue f gv ty :
  getValueNodeFor InvalidIndex f (VConstant (GlobalValue gv ty))
  = mret (valueNodeMap_find InvalidIndex f gv).
Proof. reflexivity. Qed.

Lemma getObjectNodeFor_GlobalValue fuel f gv ty :
  getObjectNodeFor InvalidIndex structElements stripPointerCasts GetUnderlyingObject
    fuel f (VConstant (GlobalValue gv ty))
  = mret (objNodeMap_find InvalidIndex f gv).
Proof. reflexivity. Qed.

(** A pointer-to-integer cast constant has an integer type, or a vector of
    integers: it never passes the entry assertion. *)
Lemma getValueNodeForConstant_PtrToInt f ty ops log :
  isIntOrIntVectorTy ty = true →
  valueNode f (ConstantExpr PtrToInt ty ops) log
  = (Abort (AssertionFailed "Not a constant pointer!"), log).
Proof.
  intros H. apply getValueNodeForConstant_not_pointer.
  destruct ty; try done.
Qed.

(** The clauses of C4 on null, undefined, integer-to-pointer and bit-cast
    constants.  On a constant of pointer type, [getValueNodeForConstant]
    returns the Null Value node (2) for a null and for an undefined constant,
    the Universal Value node (0) for an integer-to-pointer cast, and for a
    bit-cast the result of resolving the cast operand. *)
Theorem getValueNodeForConstant_cases (f : AndersNodeFactory) (ty : llvmType)
    (ops : list Constant) (log : list diag) :
  isPointerTy ty = true →
  valueNode f (ConstantPointerNull ty) log = (Ok 2, log)
  ∧ valueNode f (UndefValue ty) log = (Ok 2, log)
  ∧ valueNode f (ConstantExpr IntToPtr ty ops) log = (Ok 0, log)
  ∧ (∀ op0, valueNode f (ConstantExpr BitCast ty (op0 :: ops)) log
            = valueNode f op0 log)
  ∧ getNullPtrNode = 2 ∧ getUniversalPtrNode = 0 ∧ getIntPtrNode = 4.
Proof.
  intros H. repeat split.
  - simpl. run_M. by rewrite H.
  - simpl. run_M. by rewrite H.
  - simpl. run_M. by rewrite H.
  - intros op0. simpl. run_M. by rewrite H.
Qed.

(** C9.  A constant GEP expression handed to [getValueNodeForConstant] never
    yields a node index: the call fails an assertion, and for a GEP of
    pointer type it is the assertion of the GEP branch. *)
Theorem getValueNodeForConstant_GEP_aborts (f : AndersNodeFactory) (ty : llvmType)
    (ops : list Constant) (log : list diag) :
  ∃ msg,
    valueNode f (ConstantExpr GetElementPtr ty ops) log
    = (Abort (AssertionFailed msg), log)
    ∧ (isPointerTy ty = true → msg = "This is wrong: avoid getting here!").
Proof.
  destruct (isPointerTy ty) eqn:H.
  - exists "This is wrong: avoid getting here!". split; [|done].
    simpl. run_M. by rewrite H.
  - exists "Not a constant pointer!". split; [|done].
    by apply getValueNodeForConstant_not_pointer.
Qed.

(** C10.  On the object path only the null constant is mapped to the Null
    Object node (3): an undefined pointer constant falls through to the
    fatal unknown-constant branch, while the value path maps both to the
    Null Value node (2). *)
Theorem undef_object_asymmetry (fuel : nat) (f : AndersNodeFactory)
    (ty : llvmType) (log : list diag) :
  isPointerTy ty = true →
  objectNode fuel f (ConstantPointerNull ty) log = (Ok 3, log)
  ∧ objectNode fuel f (UndefValue ty) log
    = (Abort (Unreachable (Some "Unknown constant pointer!")), log)
  ∧ valueNode f (ConstantPointerNull ty) log = (Ok 2, log)
  ∧ valueNode f (UndefValue ty) log = (Ok 2, log)
  ∧ getNullObjectNode = 3 ∧ getNullPtrNode = 2.
Proof.
  intros H. repeat split; simpl; run_M; by rewrite H.
Qed.

Lemma getObjectNodeForConstant_GEP_eq fuel f ty op0 indexOps :
  objectNode fuel f (ConstantExpr GetElementPtr ty (op0 :: indexOps))
  = (assert (isPointerTy ty) "Not a constant pointer!" ;;
     baseNode ← objectNode fuel f op0;
     if (baseNode =? getNullObjectNode) || (baseNode =? getUniversalObjNode)
     then mret baseNode
     else
       k ← fieldNum fuel f (ConstantExpr GetElementPtr ty (op0 :: indexOps));
       mret (getOffsetObjectNode baseNode k)).
Proof. reflexivity. Qed.

(** C5.  On a constant GEP expression of pointer type,
    [getObjectNodeForConstant] first resolves the object node of the base
    operand.  If that is the Null Object node (3) or the Universal Object
    node (1) it is returned as it is; otherwise the result is the base index
    plus the field number that [constGEPtoFieldNum] computes for the
    expression.  A failure of the base resolution is the failure of the
    whole. *)
Theorem getObjectNodeForConstant_GEP (fuel : nat) (f : AndersNodeFactory)
    (ty : llvmType) (op0 : Constant) (indexOps : list Constant)
    (log log' : list diag) (r : outcome Z) :
  isPointerTy ty = true →
  objectNode fuel f op0 log = (r, log') →
  let gep := ConstantExpr GetElementPtr ty (op0 :: indexOps) in
  match r with
  | Abort e => objectNode fuel f gep log = (Abort e, log')
  | Ok baseNode =>
      (baseNode = getNullObjectNode ∨ baseNode = getUniversalObjNode →
       objectNode fuel f gep log = (Ok baseNode, log'))
      ∧ (baseNode ≠ getNullObjectNode → baseNode ≠ getUniversalObjNode →
         ∀ k log'', fieldNum fuel f gep log' = (Ok k, log'') →
                    objectNode fuel f gep log = (Ok (baseNode + k), log''))
  end
  ∧ getNullObjectNode = 3 ∧ getUniversalObjNode = 1.
Proof.
  intros H Hbase gep. split; [|done].
  unfold gep. rewrite getObjectNodeForConstant_GEP_eq.
  cbv [mbind M_bind assert]. rewrite H. cbv [mret M_ret]. rewrite Hbase.
  destruct r as [baseNode|e]; [|done].
  split.
  - intros [-> | ->]; reflexivity.
  - intros H3 H1 k log'' Hk.
    unfold getNullObjectNode, getUniversalObjNode in *.
    destruct (baseNode =? 3) eqn:E3; [lia|].
    destruct (baseNode =? 1) eqn:E1; [lia|]. cbn [orb].
    by rewrite Hk.
Qed.

End ConstantResolution.
(** ** Byte offset to field number *)

Section FieldNumbers.

Variable structElements : N -> list llvmType.

Local Abbreviation loop := (offsetToFieldNum_loop structElements).
Local Abbreviation fieldNumOf := (offsetToFieldNum structElements).

Lemma offsetToFieldNum_loop_zero fuel layout analyzer ty acc log :
  loop fuel layout analyzer ty 0 acc log = (Ok acc, log).
Proof. by destruct fuel. Qed.

Lemma collapseArray_not_array ty : isArrayTy (collapseArray ty) = false.
Proof. induction ty; simpl; auto. Qed.

Lemma collapseArray_scalar ty : isArrayTy ty = false → collapseArray ty = ty.
Proof. by destruct ty. Qed.

(** One iteration on a type that, once its arrays are stripped, is not a
    structure: the offset is reduced modulo the allocation size; a nonzero
    rest gives the warning and the accumulated field number, a zero rest
    the accumulated field number alone. *)
Lemma offsetToFieldNum_loop_scalar fuel layout analyzer ty offset acc log :
  0 < offset →
  isStructTy (collapseArray ty) = false →
  wrap64 (getTypeAllocSize layout (collapseArray ty)) ≠ 0 →
  loop (S fuel) layout analyzer ty offset acc log
  = if wrap32 (offset mod wrap64 (getTypeAllocSize layout (collapseArray ty))) =? 0
    then (Ok acc, log)
    else (Ok acc, log ++ [GEPIntoMiddleOfField]).
Proof.
  intros Hpos Hst Hsz. simpl.
  destruct (0 <? offset) eqn:E; [|lia].
  destruct (wrap64 (getTypeAllocSize layout (collapseArray ty)) =? 0) eqn:E0; [lia|].
  destruct (wrap32 (offset mod wrap64 (getTypeAllocSize layout (collapseArray ty))) =? 0)
    eqn:Er.
  - apply Z.eqb_eq in Er.
    destruct (collapseArray ty); try done; simpl; rewrite Er;
      apply offsetToFieldNum_loop_zero.
  - destruct (collapseArray ty); try done.
Qed.

(** C6.  When the current type, arrays stripped, is not a structure and the
    offset reduced modulo its allocation size is not zero, the loop prints
    the warning, stops, and returns the field number accumulated so far: the
    outcome is a result, not an abort. *)
Theorem offset_into_field_warns (fuel : nat) (layout : DataLayout)
    (analyzer : option StructAnalyzer) (ty : llvmType) (offset acc : Z)
    (log : list diag) :
  0 < offset →
  isStructTy (collapseArray ty) = false →
  wrap64 (getTypeAllocSize layout (collapseArray ty)) ≠ 0 →
  wrap32 (offset mod wrap64 (getTypeAllocSize layout (collapseArray ty))) ≠ 0 →
  loop (S fuel) layout analyzer ty offset acc log
  = (Ok acc, log ++ [GEPIntoMiddleOfField]).
Proof.
  intros Hpos Hst Hsz Hrem.
  rewrite offsetToFieldNum_loop_scalar by done.
  destruct (Z.eqb_spec
    (wrap32 (offset mod wrap64 (getTypeAllocSize layout (collapseArray ty)))) 0); done.
Qed.

Lemma offsetToFieldNum_pointer fuel f p layout ty offset log :
  dataLayout f = Some layout →
  getType p = PointerTy ty →
  fieldNumOf fuel f p offset log
  = loop fuel layout (structAnalyzer f) ty offset 0 log.
Proof.
  intros Hdl Hty. unfold offsetToFieldNum.
  cbv [mbind M_bind assert]. rewrite Hdl, Hty. reflexivity.
Qed.

(** C7.  With a pointer to an array of scalars, every byte offset gives
    field number 0, so the offsets of element [k] and of element [k + 1]
    give the same field number; and offset 0 gives field number 0 whatever
    the pointee type is. *)
Theorem array_elements_share_field (fuel : nat) (f : AndersNodeFactory)
    (layout : DataLayout) (p : Value) (elem : llvmType) (num : N)
    (k : Z) (log : list diag) :
  dataLayout f = Some layout →
  getType p = PointerTy (ArrayTy elem num) →
  isArrayTy elem = false →
  isStructTy elem = false →
  0 < getTypeAllocSize layout elem < 2 ^ 64 →
  0 <= k →
  (k + 1) * getTypeAllocSize layout elem < 2 ^ 32 →
  fieldNumOf (S fuel) f p (k * getTypeAllocSize layout elem) log = (Ok 0, log)
  ∧ fieldNumOf (S fuel) f p ((k + 1) * getTypeAllocSize layout elem) log = (Ok 0, log)
  ∧ (∀ offset, 0 <= offset < 2 ^ 32 →
       (fieldNumOf (S fuel) f p offset log).1 = Ok 0)
  ∧ (∀ fuel' q, isPointerTy (getType q) = true →
       fieldNumOf fuel' f q 0 log = (Ok 0, log)).
Proof.
  intros Hdl Hty Harr Hst Hsz Hk Hrange.
  set (s := getTypeAllocSize layout elem) in *.
  assert (Hc : collapseArray (ArrayTy elem num) = elem)
    by (simpl; by apply collapseArray_scalar).
  assert (Hw : wrap64 s = s) by (unfold wrap64; apply Z.mod_small; lia).
  assert (Hany : ∀ offset, 0 <= offset < 2 ^ 32 →
    fieldNumOf (S fuel) f p offset log
    = if wrap32 (offset mod s) =? 0 then (Ok 0, log)
      else (Ok 0, log ++ [GEPIntoMiddleOfField])).
  { intros offset Ho. rewrite (offsetToFieldNum_pointer _ _ _ _ _ _ _ Hdl Hty).
    destruct (decide (offset = 0)) as [->|Hne].
    - rewrite offsetToFieldNum_loop_zero. by rewrite Z.mod_0_l by lia.
    - rewrite offsetToFieldNum_loop_scalar; rewrite ?Hc; fold s; rewrite ?Hw;
        try done; lia. }
  assert (Hmul : ∀ j, 0 <= j → j * s < 2 ^ 32 →
    fieldNumOf (S fuel) f p (j * s) log = (Ok 0, log)).
  { intros j Hj Hjs. rewrite Hany by nia.
    rewrite Z.mod_mul by lia. reflexivity. }
  split; [apply Hmul; nia|]. split; [apply Hmul; lia|]. split.
  - intros offset Ho. rewrite Hany by done.
    by destruct (wrap32 (offset mod s) =? 0).
  - intros fuel' q Hq. destruct (getType q) as [| |ty'| | | |] eqn:Eq; try done.
    rewrite (offsetToFieldNum_pointer _ _ _ _ _ _ _ Hdl Eq).
    apply offsetToFieldNum_loop_zero.
Qed.

(** C8 (amended).  A structure of two fields at byte offsets 0 and 8 whose
    allocation size is more than 8 bytes, for which the layout reports
    element 1 as the one containing offset 8 and the pre-pass gives that
    element the field ordinal 1: with a pointer to it, byte offset 8 gives
    field number 1, and the offset node of an object at [O] for that field
    number is [O + 1]. *)
Theorem struct_second_field (fuel : nat) (f : AndersNodeFactory)
    (layout : DataLayout) (analyzer : StructAnalyzer) (info : StructInfo)
    (p : Value) (stType : N) (t0 t1 : llvmType) (O : Z) (log : list diag) :
  dataLayout f = Some layout →
  structAnalyzer f = Some analyzer →
  getStructInfo analyzer stType = Some info →
  getType p = PointerTy (StructTy stType) →
  structElements stType = [t0; t1] →
  8 < getTypeAllocSize layout (StructTy stType) < 2 ^ 64 →
  getElementOffset (getStructLayout layout stType) 0 = 0 →
  getElementOffset (getStructLayout layout stType) 1 = 8 →
  getElementContainingOffset (getStructLayout layout stType) 8 = 1 →
  getOffset info 1 = 1 →
  fieldNumOf (S fuel) f p 8 log = (Ok 1, log)
  ∧ getOffsetObjectNode O 1 = O + 1.
Proof.
  intros Hdl Hsa Hinfo Hty Hel Hsz Hoff0 Hoff1 Hidx Hord.
  split; [|reflexivity].
  rewrite (offsetToFieldNum_pointer _ _ _ _ _ _ _ Hdl Hty).
  rewrite Hsa. simpl.
  assert (Hw : wrap64 (getTypeAllocSize layout (StructTy stType))
               = getTypeAllocSize layout (StructTy stType))
    by (unfold wrap64; apply Z.mod_small; lia).
  rewrite Hw.
  destruct (getTypeAllocSize layout (StructTy stType) =? 0) eqn:E0; [lia|].
  rewrite (Z.mod_small 8) by lia.
  change (wrap32 8) with 8. rewrite Hidx. change (wrap32 1) with 1.
  rewrite Hinfo, Hord, Hoff1, Hel. simpl.
  apply offsetToFieldNum_loop_zero.
Qed.

End FieldNumbers.
(** ** The concrete module, run *)

Example example_factory_objNode : objNodeMap example_factory !! 100%N = Some 6.
Proof. reflexivity. Qed.

Example example_gep_offset :
  getGEPOffset example_stripPointerCasts 1 example_gep (Some example_layout) []
  = (Ok 8, []).
Proof. reflexivity. Qed.

Example example_gep_object :
  getObjectNodeForConstant example_InvalidIndex example_elements
    example_stripPointerCasts example_GetUnderlyingObject 1 example_factory
    example_gep []
  = (Ok 7, []).
Proof. reflexivity. Qed.

Example example_offset_into_field :
  offsetToFieldNum example_elements 2 example_factory (VConstant example_global) 9 []
  = (Ok 1, [GEPIntoMiddleOfField]).
Proof. reflexivity. Qed.

(** ** Instances of the theorems on the concrete module *)

Lemma getValueNodeForConstant_cases_witness :
  getValueNodeForConstant example_InvalidIndex example_factory
    (ConstantPointerNull (PointerTy i64)) [] = (Ok 2, [])
  ∧ getValueNodeForConstant example_InvalidIndex example_factory
      (UndefValue (PointerTy i64)) [] = (Ok 2, [])
  ∧ getValueNodeForConstant example_InvalidIndex example_factory
      (ConstantExpr IntToPtr (PointerTy i64) [ConstantInt i64 4096]) [] = (Ok 0, []).
Proof.
  destruct (getValueNodeForConstant_cases example_InvalidIndex example_factory
              (PointerTy i64) [ConstantInt i64 4096] [] eq_refl)
    as (H1 & H2 & H3 & _).
  repeat split; assumption.
Defined.

(** C4, the code at the failing input.  The claim gives every
    pointer-to-integer cast constant the Int Value node (4), and the source
    has a branch that returns it; but [ptrtoint (%pair* @g to i64)], of type
    [i64] as every such cast is, fails the entry assertion of
    [getValueNodeForConstant] and the branch is not reached. *)
Lemma ptrtoint_constant_rejected :
  getValueNodeForConstant example_InvalidIndex example_factory example_ptrtoint []
  = (Abort (AssertionFailed "Not a constant pointer!"), [])
  ∧ getValueNodeForConstant example_InvalidIndex example_factory example_ptrtoint []
    ≠ (Ok getIntPtrNode, []).
Proof. split; [reflexivity | discriminate]. Qed.

Lemma undef_object_asymmetry_witness :
  getObjectNodeForConstant example_InvalidIndex example_elements
    example_stripPointerCasts example_GetUnderlyingObject 1 example_factory
    (UndefValue (PointerTy i64)) []
  = (Abort (Unreachable (Some "Unknown constant pointer!")), [])
  ∧ getValueNodeForConstant example_InvalidIndex example_factory
      (UndefValue (PointerTy i64)) [] = (Ok 2, []).
Proof.
  destruct (undef_object_asymmetry example_InvalidIndex example_elements
              example_stripPointerCasts example_GetUnderlyingObject 1
              example_factory (PointerTy i64) [] eq_refl)
    as (_ & H2 & _ & H4 & _).
  split; assumption.
Defined.

Lemma getObjectNodeForConstant_GEP_witness :
  getObjectNodeForConstant example_InvalidIndex example_elements
    example_stripPointerCasts example_GetUnderlyingObject 1 example_factory
    example_gep []
  = (Ok (6 + 1), []).
Proof.
  destruct (getObjectNodeForConstant_GEP example_InvalidIndex example_elements
              example_stripPointerCasts example_GetUnderlyingObject 1
              example_factory (PointerTy i64) example_global
              [ConstantInt (IntegerTy 32) 0; ConstantInt (IntegerTy 32) 1]
              [] [] (Ok 6) eq_refl eq_refl)
    as [[_ H] _].
  apply H; [discriminate | discriminate | reflexivity].
Defined.

Lemma offset_into_field_warns_witness :
  offsetToFieldNum_loop example_elements 1 example_layout (Some example_analyzer)
    i64 1 1 []
  = (Ok 1, [GEPIntoMiddleOfField]).
Proof.
  apply (offset_into_field_warns example_elements 0 example_layout
           (Some example_analyzer) i64 1 1 []).
  - lia.
  - reflexivity.
  - vm_compute. discriminate.
  - vm_compute. discriminate.
Defined.

(** [@a : [4 x i64]*]: elements 2 and 3 lie at byte offsets 16 and 24. *)
Lemma array_elements_share_field_witness :
  offsetToFieldNum example_elements 1 example_factory
    (VConstant (GlobalValue 200%N (PointerTy (ArrayTy i64 4)))) 16 [] = (Ok 0, [])
  ∧ offsetToFieldNum example_elements 1 example_factory
      (VConstant (GlobalValue 200%N (PointerTy (ArrayTy i64 4)))) 24 [] = (Ok 0, []).
Proof.
  assert (Hs : 0 < getTypeAllocSize example_layout i64 < 2 ^ 64)
    by (vm_compute; split; reflexivity).
  assert (Hk : 0 <= 2) by lia.
  assert (Hr : (2 + 1) * getTypeAllocSize example_layout i64 < 2 ^ 32)
    by (vm_compute; reflexivity).
  destruct (array_elements_share_field example_elements 0 example_factory
              example_layout
              (VConstant (GlobalValue 200%N (PointerTy (ArrayTy i64 4))))
              i64 4%N 2 [] eq_refl eq_refl eq_refl eq_refl Hs Hk Hr)
    as (H1 & H2 & _).
  split; assumption.
Defined.

Lemma struct_second_field_witness :
  offsetToFieldNum example_elements 1 example_factory (VConstant example_global) 8 []
  = (Ok 1, [])
  ∧ getOffsetObjectNode 6 1 = 6 + 1.
Proof.
  apply (struct_second_field example_elements 0 example_factory example_layout
           example_analyzer {| getOffset := fun i => i |}
           (VConstant example_global) pairId i64 i64 6 []);
    try reflexivity.
  vm_compute. split; reflexivity.
Defined.

(** The claim C8 without the bound on the size fails.  [%flex] has two
    fields at byte offsets 0 and 8, element 1 is the one containing offset 8
    and its field ordinal is 1; but the allocation size is 8, the offset 8
    is reduced to 0 and the field number is 0, not 1. *)
Lemma struct_second_field_empty_tail :
  flex_elements flexId = [i64; ArrayTy (IntegerTy 8) 0]
  ∧ getElementOffset (getStructLayout flex_layout flexId) 0 = 0
  ∧ getElementOffset (getStructLayout flex_layout flexId) 1 = 8
  ∧ getElementContainingOffset (getStructLayout flex_layout flexId) 8 = 1
  ∧ (λ info, getOffset info 1) <$> getStructInfo flex_analyzer flexId = Some 1
  ∧ getTypeAllocSize flex_layout flexTy = 8
  ∧ offsetToFieldNum flex_elements 3 flex_factory (VConstant flex_global) 8 []
    = (Ok 0, [])
  ∧ offsetToFieldNum flex_elements 3 flex_factory (VConstant flex_global) 8 []
    ≠ (Ok 1, []).
Proof. repeat split. discriminate. Qed.

(** * Further properties *)

(** ** Creation calls and lookups *)

(** A creation call succeeds exactly when its key is not in its map. *)
Lemma do_call_ok_iff c f :
  (∃ r, do_call c f = Ok r)
  ↔ match call_key c with
    | Some (m, e) => get_map m f !! e = None
    | None => True
    end.
Proof.
  destruct c; simpl;
    unfold createValueNode, createObjectNode, createReturnNode, createVarargNode;
    simpl; repeat case_bool_decide; simpl;
    try (split; [done | eauto]).
  - destruct (valueNodeMap f !! val); split; eauto; try done. by intros [? ?].
  - destruct (objNodeMap f !! val); split; eauto; try done. by intros [? ?].
  - destruct (returnMap f !! fn); split; eauto; try done. by intros [? ?].
  - destruct (varargMap f !! fn); split; eauto; try done. by intros [? ?].
Qed.

(** What a successful creation call does to each map. *)
Lemma do_call_maps c f i f' m :
  do_call c f = Ok (i, f') →
  get_map m f'
  = match call_key c with
    | Some (m', e) => if decide (m = m') then <[e := i]> (get_map m f) else get_map m f
    | None => get_map m f
    end.
Proof.
  destruct c; simpl;
    unfold createValueNode, createObjectNode, createReturnNode, createVarargNode;
    simpl; intros H; inv_ok; simpl; destruct m; simpl; try done;
    by case_bool_decide.
Qed.

Lemma run_maps_subseteq cs f idxs f' m :
  run cs f = Ok (idxs, f') → get_map m f ⊆ get_map m f'.
Proof.
  intros H. destruct (run_spec _ _ _ _ H) as (_ & _ & _ & _ & ? & ? & ? & ?).
  by destruct m.
Qed.

(** The entry a call wrote is still there after any further calls. *)
Lemma created_entry_stays c cs f f1 f2 i idxs m e :
  call_key c = Some (m, e) →
  do_call c f = Ok (i, f1) →
  run cs f1 = Ok (idxs, f2) →
  get_map m f2 !! e = Some i.
Proof.
  intros Hkey Hc Hrun.
  eapply lookup_weaken; [|by eapply run_maps_subseteq].
  rewrite (do_call_maps _ _ _ _ m Hc), Hkey.
  rewrite decide_True by done. apply lookup_insert_eq.
Qed.



Section Lookups.

Variable InvalidIndex : Z.
Variable structElements : N -> list llvmType.
Variable stripPointerCasts : Value -> Value.
Variable GetUnderlyingObject : Value -> Value.

Local Abbreviation valueNodeFor := (getValueNodeFor InvalidIndex).
Local Abbreviation objectNodeFor :=
  (getObjectNodeFor InvalidIndex structElements stripPointerCasts GetUnderlyingObject).
Local Abbreviation valueNode := (getValueNodeForConstant InvalidIndex).
Local Abbreviation objectNode :=
  (getObjectNodeForConstant InvalidIndex structElements stripPointerCasts
                            GetUnderlyingObject).

(** The index [createValueNode] returns for a non-empty entity is what
    [getValueNodeFor] answers for that entity from then on, whatever is
    created afterwards; for a global of pointer type the constant resolver
    gives the same index. *)
Theorem createValueNode_then_lookup (val : N) (cs : list call)
    (f f1 f2 : AndersNodeFactory) (i : Z) (idxs : list Z)
    (ty : llvmType) (log : list diag) :
  val ≠ nullptr →
  createValueNode val f = Ok (i, f1) →
  run cs f1 = Ok (idxs, f2) →
  valueNodeFor f2 (VNonConstant val ty) log = (Ok i, log)
  ∧ valueNodeFor f2 (VConstant (GlobalValue val ty)) log = (Ok i, log)
  ∧ (isPointerTy ty = true →
     valueNode f2 (GlobalValue val ty) log = (Ok i, log)).
Proof.
  intros Hval Hc Hrun.
  assert (Hl : valueNodeMap f2 !! val = Some i).
  { apply (created_entry_stays (CreateValue val) cs f f1 f2 i idxs ValueMap val);
      [|done|done]. simpl. by rewrite bool_decide_true. }
  split; [|split].
  - simpl. run_M. rewrite bool_decide_true by done. unfold valueNodeMap_find.
    by rewrite Hl.
  - simpl. run_M. unfold valueNodeMap_find. by rewrite Hl.
  - intros Hty. simpl. run_M. rewrite Hty. unfold valueNodeMap_find. by rewrite Hl.
Qed.

(** The same for [createObjectNode] and [getObjectNodeFor]. *)
Theorem createObjectNode_then_lookup (val : N) (cs : list call)
    (f f1 f2 : AndersNodeFactory) (i : Z) (idxs : list Z)
    (fuel : nat) (ty : llvmType) (log : list diag) :
  val ≠ nullptr →
  createObjectNode val f = Ok (i, f1) →
  run cs f1 = Ok (idxs, f2) →
  objectNodeFor fuel f2 (VNonConstant val ty) log = (Ok i, log)
  ∧ objectNodeFor fuel f2 (VConstant (GlobalValue val ty)) log = (Ok i, log)
  ∧ (isPointerTy ty = true →
     objectNode fuel f2 (GlobalValue val ty) log = (Ok i, log)).
Proof.
  intros Hval Hc Hrun.
  assert (Hl : objNodeMap f2 !! val = Some i).
  { apply (created_entry_stays (CreateObject val) cs f f1 f2 i idxs ObjMap val);
      [|done|done]. simpl. by rewrite bool_decide_true. }
  split; [|split].
  - simpl. run_M. rewrite bool_decide_true by done. unfold objNodeMap_find.
    by rewrite Hl.
  - simpl. run_M. unfold objNodeMap_find. by rewrite Hl.
  - intros Hty. simpl. run_M. rewrite Hty. unfold objNodeMap_find. by rewrite Hl.
Qed.

(** The index [createReturnNode] returns for a function is what
    [getReturnNodeFor] answers for it from then on, and likewise for
    [createVarargNode] and [getVarargNodeFor]; the two maps are apart, and
    the empty function pointer is a key like any other. *)
Theorem createReturnNode_then_lookup (fn : N) (cs : list call)
    (f f1 f2 : AndersNodeFactory) (i : Z) (idxs : list Z) :
  run cs f1 = Ok (idxs, f2) →
  (createReturnNode fn f = Ok (i, f1) → getReturnNodeFor InvalidIndex f2 fn = i)
  ∧ (createVarargNode fn f = Ok (i, f1) → getVarargNodeFor InvalidIndex f2 fn = i).
Proof.
  intros Hrun. split; intros Hc.
  - pose proof (created_entry_stays (CreateReturn fn) cs f f1 f2 i idxs ReturnMap fn
                  eq_refl Hc Hrun) as Hl.
    simpl in Hl. unfold getReturnNodeFor. by rewrite Hl.
  - pose proof (created_entry_stays (CreateVararg fn) cs f f1 f2 i idxs VarargMap fn
                  eq_refl Hc Hrun) as Hl.
    simpl in Hl. unfold getVarargNodeFor. by rewrite Hl.
Qed.


End Lookups.

(** ** When a run aborts, and what it keeps *)

Lemma run_cons_ok_iff c cs f :
  (∃ r, run (c :: cs) f = Ok r)
  ↔ ∃ i f1, do_call c f = Ok (i, f1) ∧ ∃ r, run cs f1 = Ok r.
Proof.
  split.
  - intros [[idxs f'] H]. apply run_cons_ok in H as (i & f1 & rest & Hc & Hr & _).
    eauto.
  - intros (i & f1 & Hc & [[rest f'] Hr]). simpl. rewrite Hc, Hr. eauto.
Qed.

(** A run of creation calls goes through exactly when the keys it writes
    are pairwise distinct and none of them is in its map beforehand: the
    only abort of a run is the duplicate-mapping assertion. *)
Theorem run_ok_iff (cs : list call) : ∀ f : AndersNodeFactory,
  (∃ r, run cs f = Ok r)
  ↔ NoDup (omap call_key cs)
    ∧ ∀ m e, (m, e) ∈ omap call_key cs → get_map m f !! e = None.
Proof.
  induction cs as [|c cs IH]; intros f.
  - simpl. split; [|eauto]. intros _. split; [constructor|].
    intros m e Hin. by apply elem_of_nil in Hin.
  - rewrite run_cons_ok_iff. simpl. split.
    + intros (i & f1 & Hc & Hr). apply IH in Hr as [Hnd Hfresh].
      assert (Hok : ∃ r, do_call c f = Ok r) by eauto.
      apply do_call_ok_iff in Hok.
      pose proof (λ m, do_call_maps c f i f1 m Hc) as Hmaps.
      destruct (call_key c) as [[m0 e0]|].
      * split.
        -- constructor; [|done]. intros Hin. specialize (Hfresh _ _ Hin).
           rewrite Hmaps, decide_True, lookup_insert_eq in Hfresh by done. done.
        -- intros m e [Heq|Hin]%elem_of_cons.
           ++ by inversion Heq; subst.
           ++ specialize (Hfresh _ _ Hin). rewrite Hmaps in Hfresh.
              case_decide; [|done]. subst.
              destruct (decide (e = e0)) as [->|Hne].
              ** by rewrite lookup_insert_eq in Hfresh.
              ** by rewrite lookup_insert_ne in Hfresh.
      * split; [done|]. intros m e Hin. specialize (Hfresh _ _ Hin).
        by rewrite Hmaps in Hfresh.
    + intros [Hnd Hfresh].
      assert (Hok : ∃ r, do_call c f = Ok r).
      { apply do_call_ok_iff. destruct (call_key c) as [[m0 e0]|]; [|done].
        apply Hfresh. left. }
      destruct Hok as [[i f1] Hc]. exists i, f1. split; [done|].
      pose proof (λ m, do_call_maps c f i f1 m Hc) as Hmaps.
      apply IH. destruct (call_key c) as [[m0 e0]|].
      * apply NoDup_cons in Hnd as [Hnot Hnd]. split; [done|].
        intros m e Hin. rewrite Hmaps. case_decide.
        -- subst. rewrite lookup_insert_ne; [apply Hfresh; by right|].
           intros ->. done.
        -- apply Hfresh. by right.
      * split; [done|]. intros m e Hin. rewrite Hmaps. by apply Hfresh.
Qed.

Lemma factory_wf_size f : factory_wf f → 5 <= nodes_size f.
Proof.
  intros [Hpre _]. apply (f_equal length) in Hpre.
  rewrite length_take in Hpre. change (length (nodes initial)) with 5%nat in Hpre.
  unfold nodes_size. lia.
Qed.

Lemma initial_wf : factory_wf initial.
Proof.
  split; [reflexivity|]. split; [apply initial_indexed|].
  intros m e i H. destruct m; simpl in H; by rewrite lookup_empty in H.
Qed.

Lemma call_key_kind c m e :
  call_key c = Some (m, e) → map_kind m = call_kind c ∧ e = call_entity c.
Proof.
  destruct c; simpl; try case_bool_decide; intros Hk; by inversion Hk.
Qed.

Lemma do_call_wf c f i f' :
  factory_wf f → nodes_size f < 2 ^ 32 →
  do_call c f = Ok (i, f') → factory_wf f'.
Proof.
  intros Hwf Hsz Hc. pose proof (factory_wf_size _ Hwf) as H5.
  destruct Hwf as (Hpre & Hidx & Hmap).
  pose proof (λ m, do_call_maps c f i f' m Hc) as Hmaps.
  apply do_call_spec in Hc as (Hi & Hn & _).
  rewrite wrap32_small in Hi by (unfold nodes_size in *; lia).
  unfold nodes_size in *.
  split; [|split].
  - rewrite Hn, take_app_le by lia. done.
  - intros k n Hk. rewrite Hn in Hk.
    apply lookup_app_Some in Hk as [Hk|[Hge Hk]]; [by apply Hidx|].
    apply list_lookup_singleton_Some in Hk as [Hk0 <-]. simpl. lia.
  - intros m e j Hj. rewrite Hmaps in Hj.
    assert (Hold : get_map m f !! e = Some j →
      5 <= j ∧ nodes f' !! Z.to_nat j = Some (mkAndersNode (map_kind m) j e)).
    { intros Ho. destruct (Hmap _ _ _ Ho) as [Hj5 Hnode]. split; [done|].
      rewrite Hn. by apply lookup_app_l_Some. }
    destruct (call_key c) as [[m0 e0]|] eqn:Hkey; [|by apply Hold].
    case_decide; [|by apply Hold]. subst m0.
    destruct (decide (e = e0)) as [->|Hne].
    + rewrite lookup_insert_eq in Hj. inversion Hj; subst j.
      destruct (call_key_kind _ _ _ Hkey) as [-> ->].
      split; [lia|]. rewrite Hn, Hi, Nat2Z.id.
      rewrite lookup_app_r by lia. by rewrite Nat.sub_diag.
    + rewrite lookup_insert_ne in Hj by done. by apply Hold.
Qed.

Lemma run_wf (cs : list call) : ∀ (f f' : AndersNodeFactory) (idxs : list Z),
  factory_wf f →
  run cs f = Ok (idxs, f') →
  nodes_size f' <= 2 ^ 32 →
  factory_wf f'.
Proof.
  induction cs as [|c cs IH]; intros f f' idxs Hwf Hrun Hsz.
  - simpl in Hrun. by inversion Hrun; subst.
  - apply run_cons_ok in Hrun as (i & f1 & rest & Hc & Hr & ->).
    destruct (run_spec _ _ _ _ Hr) as (_ & Hlen & _).
    pose proof Hc as Hc'. apply do_call_spec in Hc' as (_ & Hn & _).
    eapply IH; [|done|done].
    eapply do_call_wf; [done| |done].
    unfold nodes_size in *. rewrite Hn, length_app in Hlen. simpl in Hlen. lia.
Qed.

(** Every factory that creation calls build from the constructed one is
    well formed as long as the table fits the index type: the reserved
    nodes are the first five, every node stores its position, and every
    entry of the four maps is the position, never a reserved one, of a node
    of the right kind whose origin entity is the entry's key. *)
Theorem run_keeps_wf (cs : list call) (f : AndersNodeFactory) (idxs : list Z) :
  run cs initial = Ok (idxs, f) →
  nodes_size f <= 2 ^ 32 →
  take 5 (nodes f) = nodes initial
  ∧ table_indexed f
  ∧ ∀ m e i, get_map m f !! e = Some i →
      5 <= i ∧ nodes f !! Z.to_nat i = Some (mkAndersNode (map_kind m) i e).
Proof. intros Hrun Hsz. exact (run_wf cs initial f idxs initial_wf Hrun Hsz). Qed.

(** ** More on the resolution of constants *)

(** Induction on a constant along its first operand, the only one the
    resolvers descend into. *)
Lemma Constant_op0_ind (P : Constant → Prop) :
  (∀ c, (∀ opc ty op0 ops, c = ConstantExpr opc ty (op0 :: ops) → P op0) → P c) →
  ∀ c, P c.
Proof.
  intros H. fix IH 1. intros c. destruct c as [ | | | |opc ty ops| ];
    try (apply H; intros; discriminate).
  destruct ops as [|op0 ops]; apply H; [intros; discriminate|].
  intros opc' ty' op0' ops' Heq. injection Heq as _ _ <- _. apply IH.
Qed.

Lemma reserved_node_lookup f k n :
  factory_wf f → nodes initial !! k = Some n → nodes f !! k = Some n.
Proof.
  intros [Hpre _] Hk. rewrite <- Hpre in Hk.
  apply lookup_take_Some in Hk. tauto.
Qed.

Section MoreConstantResolution.

Variable InvalidIndex : Z.
Variable structElements : N -> list llvmType.
Variable stripPointerCasts : Value -> Value.
Variable GetUnderlyingObject : Value -> Value.

Local Abbreviation valueNode := (getValueNodeForConstant InvalidIndex).
Local Abbreviation objectNode :=
  (getObjectNodeForConstant InvalidIndex structElements stripPointerCasts
                            GetUnderlyingObject).
Local Abbreviation fieldNum :=
  (constGEPtoFieldNum structElements stripPointerCasts GetUnderlyingObject).

(** In a well-formed factory, whatever constant [getValueNodeForConstant]
    resolves, it prints nothing and answers either [InvalidIndex] or the
    index of a node of the table that is a value node and stores that
    index. *)
Theorem getValueNodeForConstant_value_node (f : AndersNodeFactory) (c : Constant)
    (log log' : list diag) (i : Z) :
  factory_wf f →
  valueNode f c log = (Ok i, log') →
  log' = log
  ∧ (i = InvalidIndex
     ∨ ∃ e, nodes f !! Z.to_nat i = Some (mkAndersNode VALUE_NODE i e)).
Proof.
  intros Hwf. revert log log' i.
  induction c as [c IH] using Constant_op0_ind. intros log log' i.
  destruct (isPointerTy (Constant_getType c)) eqn:Hty;
    [|by rewrite getValueNodeForConstant_not_pointer].
  destruct c as [ty|ty|gv ty|ty v|opc ty ops|ty]; simpl in Hty; simpl; run_M;
    rewrite Hty; try discriminate.
  - intros [= <- <-]. split; [done|]. right. exists nullptr.
    by apply (reserved_node_lookup f 2).
  - intros [= <- <-]. split; [done|]. right. exists nullptr.
    by apply (reserved_node_lookup f 2).
  - unfold valueNodeMap_find. intros [= <- <-]. split; [done|].
    destruct (valueNodeMap f !! gv) as [j|] eqn:Hj; [|by left].
    right. exists gv. destruct Hwf as (_ & _ & Hmap).
    by destruct (Hmap ValueMap gv j Hj).
  - destruct opc; try discriminate.
    + intros [= <- <-]. split; [done|]. right. exists nullptr.
      by apply (reserved_node_lookup f 0).
    + intros [= <- <-]. split; [done|]. right. exists nullptr.
      by apply (reserved_node_lookup f 4).
    + destruct ops as [|op0 ops]; [discriminate|].
      intros H. by eapply IH.
Qed.

Lemma bitcasts_resolve fuel f tys c log :
  Forall (λ ty, isPointerTy ty = true) tys →
  valueNode f (bitcasts tys c) log = valueNode f c log
  ∧ objectNode fuel f (bitcasts tys c) log = objectNode fuel f c log.
Proof.
  induction 1 as [|ty tys Hty _ [IHv IHo]]; [done|].
  split.
  - rewrite <- IHv. simpl. run_M. by rewrite Hty.
  - rewrite <- IHo. simpl. run_M. by rewrite Hty.
Qed.

(** Pointer bit-casts are transparent to both resolvers: a constant wrapped
    in any number of them resolves as the constant itself does. *)
Theorem bitcasts_transparent (fuel : nat) (f : AndersNodeFactory)
    (tys : list llvmType) (c : Constant) (log : list diag) :
  Forall (λ ty, isPointerTy ty = true) tys →
  valueNode f (bitcasts tys c) log = valueNode f c log
  ∧ objectNode fuel f (bitcasts tys c) log = objectNode fuel f c log.
Proof. apply bitcasts_resolve. Qed.

(** Constants neither resolver models are fatal on both paths and never get
    an index.  A pointer constant that is no null, undefined, global or
    expression ends in the unknown-constant [llvm_unreachable] with nothing
    printed; an expression with an unhandled opcode is printed once and ends
    in [llvm_unreachable]; on the object path a pointer-to-integer cast is
    such an opcode. *)
Theorem unsupported_constants_fatal (fuel : nat) (f : AndersNodeFactory)
    (ty : llvmType) (ops : list Constant) (log : list diag) :
  isPointerTy ty = true →
  let unknown := (Abort (Unreachable (Some "Unknown constant pointer!")), log) in
  let unhandled c := (Abort (Unreachable None), log ++ [NotYetHandled c]) in
  (∀ v, valueNode f (ConstantInt ty v) log = unknown
        ∧ objectNode fuel f (ConstantInt ty v) log = unknown)
  ∧ valueNode f (OtherConstant ty) log = unknown
  ∧ objectNode fuel f (OtherConstant ty) log = unknown
  ∧ (∀ code, let c := ConstantExpr (OtherOpcode code) ty ops in
       valueNode f c log = unhandled c ∧ objectNode fuel f c log = unhandled c)
  ∧ (let c := ConstantExpr PtrToInt ty ops in objectNode fuel f c log = unhandled c).
Proof.
  intros H. simpl. repeat split; simpl; run_M; by rewrite H.
Qed.

(** A GEP whose base is, through any pointer bit-casts, the null constant
    or an integer-to-pointer cast resolves to the Null Object node (3) or
    the Universal Object node (1) in every factory: no field number is
    computed, so this holds with no data layout set and with no fuel. *)
Theorem gep_of_sentinel_base (fuel : nat) (f : AndersNodeFactory)
    (ty ty0 : llvmType) (tys : list llvmType) (ops indexOps : list Constant)
    (log : list diag) :
  isPointerTy ty = true →
  isPointerTy ty0 = true →
  Forall (λ t, isPointerTy t = true) tys →
  objectNode fuel f
    (ConstantExpr GetElementPtr ty (bitcasts tys (ConstantPointerNull ty0) :: indexOps))
    log = (Ok 3, log)
  ∧ objectNode fuel f
      (ConstantExpr GetElementPtr ty
         (bitcasts tys (ConstantExpr IntToPtr ty0 ops) :: indexOps))
      log = (Ok 1, log).
Proof.
  intros Hty Hty0 Htys. split.
  - rewrite getObjectNodeForConstant_GEP_eq.
    cbv [mbind M_bind assert]. rewrite Hty. cbv [mret M_ret].
    destruct (bitcasts_resolve fuel f tys (ConstantPointerNull ty0) log Htys)
      as [_ ->].
    simpl. run_M. by rewrite Hty0.
  - rewrite getObjectNodeForConstant_GEP_eq.
    cbv [mbind M_bind assert]. rewrite Hty. cbv [mret M_ret].
    destruct (bitcasts_resolve fuel f tys (ConstantExpr IntToPtr ty0 ops) log Htys)
      as [_ ->].
    simpl. run_M. by rewrite Hty0.
Qed.

(** In a well-formed factory a GEP on a global that has an object node never
    takes the sentinel short cut: its node is the global's object node plus
    the field number of the expression. *)
Theorem gep_of_registered_global (fuel : nat) (f : AndersNodeFactory)
    (gv : N) (i k : Z) (ty tyg : llvmType) (indexOps : list Constant)
    (log log' : list diag) :
  factory_wf f →
  objNodeMap f !! gv = Some i →
  isPointerTy ty = true →
  isPointerTy tyg = true →
  fieldNum fuel f (ConstantExpr GetElementPtr ty (GlobalValue gv tyg :: indexOps)) log
  = (Ok k, log') →
  objectNode fuel f (ConstantExpr GetElementPtr ty (GlobalValue gv tyg :: indexOps)) log
  = (Ok (i + k), log').
Proof.
  intros (_ & _ & Hmap) Hi Hty Htyg Hk.
  destruct (Hmap ObjMap gv i Hi) as [H5 _].
  rewrite getObjectNodeForConstant_GEP_eq.
  cbv [mbind M_bind assert]. rewrite Hty. cbv [mret M_ret].
  replace (objectNode fuel f (GlobalValue gv tyg) log) with (@Ok Z i, log).
  2:{ simpl. run_M. rewrite Htyg. unfold objNodeMap_find. by rewrite Hi. }
  unfold getNullObjectNode, getUniversalObjNode.
  destruct (i =? 3) eqn:E3; [lia|]. destruct (i =? 1) eqn:E1; [lia|].
  cbn [orb]. by rewrite Hk.
Qed.

End MoreConstantResolution.

(** ** More on byte offsets and field numbers *)

Section MoreFieldNumbers.

Variable structElements : N -> list llvmType.
Variable stripPointerCasts : Value -> Value.
Variable GetUnderlyingObject : Value -> Value.

Local Abbreviation loop := (offsetToFieldNum_loop structElements).
Local Abbreviation fieldNumOf := (offsetToFieldNum structElements).
Local Abbreviation gepOffset := (getGEPOffset stripPointerCasts).
Local Abbreviation fieldNum :=
  (constGEPtoFieldNum structElements stripPointerCasts GetUnderlyingObject).

Lemma getGEPOffset_inv (fuel : nat) : ∀ (value : Constant)
    (dl : option DataLayout) (log log' : list diag) (r : outcome Z),
  gepOffset fuel value dl log = (r, log') →
  log' = log
  ∧ ∀ o, r = Ok o →
      0 <= o < 2 ^ 32
      ∧ ∃ ty p indexOps layout,
          value = ConstantExpr GetElementPtr ty (p :: indexOps)
          ∧ dl = Some layout
          ∧ forallb isConstantInt indexOps = true.
Proof.
  induction fuel as [|fuel IH]; intros value dl log log' r; simpl.
  - intros [= <- <-]. split; [done|]. intros o [=].
  - destruct value as [ | | | |opc ty ops| ];
      try (intros [= <- <-]; split; [done|]; intros o [=]).
    destruct opc; try (intros [= <- <-]; split; [done|]; intros o [=]).
    destruct dl as [layout|]; [|intros [= <- <-]; split; [done|]; intros o [=]].
    destruct ops as [|p indexOps]; [intros [= <- <-]; split; [done|]; intros o [=]|].
    assert (Htail : ∀ o0 : Z,
      (assert (forallb isConstantInt indexOps)
              "getGEPOffset does not accept non-const GEP indices!" ;;
       mret (wrap32 (o0 + getIndexedOffset layout (Constant_getType p) indexOps)))
        log = (r, log') →
      log' = log
      ∧ ∀ o, r = Ok o →
          0 <= o < 2 ^ 32
          ∧ ∃ ty0 p0 indexOps0 layout0,
              ConstantExpr GetElementPtr ty (p :: indexOps)
              = ConstantExpr GetElementPtr ty0 (p0 :: indexOps0)
              ∧ Some layout = Some layout0
              ∧ forallb isConstantInt indexOps0 = true).
    { intros o0. cbv [mbind M_bind mret M_ret assert raise].
      destruct (forallb isConstantInt indexOps) eqn:Hidx.
      - intros [= <- <-]. split; [done|]. intros o [= <-].
        split; [apply wrap32_range|]. by exists ty, p, indexOps, layout.
      - intros [= <- <-]. split; [done|]. intros o [=]. }
    destruct (stripPointerCasts (VConstant p)) as [c0|];
      [|intros H; apply (Htail 0); exact H].
    destruct c0 as [ | | | |opc0 ty0 ops0| ];
      try (intros H; apply (Htail 0); exact H).
    destruct opc0; try (intros H; apply (Htail 0); exact H).
    cbv [mbind M_bind].
    destruct (gepOffset fuel (ConstantExpr GetElementPtr ty0 ops0) (Some layout) log)
      as [r1 log1] eqn:Hr1.
    apply IH in Hr1 as [-> _].
    destruct r1 as [o1|e].
    + intros H. apply (Htail (wrap32 (0 + o1))). exact H.
    + intros [= <- <-]. split; [done|]. intros o [=].
Qed.

(** [getGEPOffset] prints nothing, and it returns an offset only for a GEP
    constant expression with a pointer operand, with a data layout set and
    with constant integers for all its indices; the offset is in the range
    of [unsigned]. *)
Theorem getGEPOffset_result (fuel : nat) (value : Constant)
    (dl : option DataLayout) (log log' : list diag) (r : outcome Z) :
  gepOffset fuel value dl log = (r, log') →
  log' = log
  ∧ ∀ o, r = Ok o →
      0 <= o < 2 ^ 32
      ∧ ∃ ty p indexOps layout,
          value = ConstantExpr GetElementPtr ty (p :: indexOps)
          ∧ dl = Some layout
          ∧ forallb isConstantInt indexOps = true.
Proof. apply getGEPOffset_inv. Qed.

(** Nested constant GEPs add up.  When the pointer operand, its casts
    stripped, is again a GEP constant, the offset is the inner offset plus
    the indexed offset of the outer indices, modulo [2 ^ 32]; when it is
    not, the offset is the indexed offset alone. *)
Theorem getGEPOffset_nested (fuel : nat) (layout : DataLayout)
    (ty : llvmType) (p : Constant) (indexOps : list Constant)
    (log : list diag) :
  forallb isConstantInt indexOps = true →
  (∀ ty' ops' inner,
     stripPointerCasts (VConstant p) = VConstant (ConstantExpr GetElementPtr ty' ops') →
     gepOffset fuel (ConstantExpr GetElementPtr ty' ops') (Some layout) log
     = (Ok inner, log) →
     gepOffset (S fuel) (ConstantExpr GetElementPtr ty (p :: indexOps)) (Some layout) log
     = (Ok (wrap32 (wrap32 inner
                    + getIndexedOffset layout (Constant_getType p) indexOps)), log))
  ∧ ((∀ ty' ops', stripPointerCasts (VConstant p)
                  ≠ VConstant (ConstantExpr GetElementPtr ty' ops')) →
     gepOffset (S fuel) (ConstantExpr GetElementPtr ty (p :: indexOps)) (Some layout) log
     = (Ok (wrap32 (getIndexedOffset layout (Constant_getType p) indexOps)), log)).
Proof.
  intros Hidx. split.
  - intros ty' ops' inner Hs Hin. simpl. rewrite Hs.
    cbv [mbind M_bind]. rewrite Hin. cbv [mret M_ret assert]. by rewrite Hidx.
  - intros Hs. simpl.
    destruct (stripPointerCasts (VConstant p)) as [c0|] eqn:E;
      [|cbv [mbind M_bind mret M_ret assert]; by rewrite Hidx].
    destruct c0 as [ | | | |opc0 ty0 ops0| ];
      try (cbv [mbind M_bind mret M_ret assert]; by rewrite Hidx).
    destruct opc0; try (cbv [mbind M_bind mret M_ret assert]; by rewrite Hidx).
    by destruct (Hs ty0 ops0).
Qed.

(** The contract of [offsetToFieldNum].  A value that is no pointer fails
    the first assertion; a pointer with no data layout set fails the second,
    also at offset 0.  With a positive offset, a pointee whose allocation
    size is 0 makes the reduction divide by zero, and a structure the
    pre-pass has no information for fails the [structInfoMap] assertion. *)
Theorem offsetToFieldNum_contract (fuel : nat) (f : AndersNodeFactory)
    (p : Value) (offset : Z) (log : list diag) :
  (isPointerTy (getType p) = false →
   fieldNumOf fuel f p offset log
   = (Abort (AssertionFailed "Passing a non-ptr to offsetToFieldNum!"), log))
  ∧ (isPointerTy (getType p) = true → dataLayout f = None →
     fieldNumOf fuel f p offset log
     = (Abort (AssertionFailed "DataLayout is NULL when calling offsetToFieldNum!"),
        log))
  ∧ (∀ layout ty, dataLayout f = Some layout → getType p = PointerTy ty →
     0 < offset →
     wrap64 (getTypeAllocSize layout (collapseArray ty)) = 0 →
     fieldNumOf (S fuel) f p offset log = (Abort DivisionByZero, log))
  ∧ (∀ layout ty st sa, dataLayout f = Some layout → getType p = PointerTy ty →
     0 < offset →
     collapseArray ty = StructTy st →
     wrap64 (getTypeAllocSize layout (StructTy st)) ≠ 0 →
     structAnalyzer f = Some sa → getStructInfo sa st = None →
     fieldNumOf (S fuel) f p offset log
     = (Abort (AssertionFailed "structInfoMap should have info for all structs!"),
        log)).
Proof.
  split; [|split; [|split]].
  - intros H. unfold offsetToFieldNum. cbv [mbind M_bind assert]. by rewrite H.
  - intros H Hdl. unfold offsetToFieldNum. cbv [mbind M_bind assert].
    by rewrite H, Hdl.
  - intros layout ty Hdl Hty Hpos Hsz.
    rewrite (offsetToFieldNum_pointer _ _ _ _ _ _ _ _ Hdl Hty). simpl.
    destruct (0 <? offset) eqn:E; [|lia]. by rewrite Hsz.
  - intros layout ty st sa Hdl Hty Hpos Hc Hsz Hsa Hinfo.
    rewrite (offsetToFieldNum_pointer _ _ _ _ _ _ _ _ Hdl Hty). simpl.
    destruct (0 <? offset) eqn:E; [|lia]. rewrite Hc.
    destruct (wrap64 (getTypeAllocSize layout (StructTy st)) =? 0) eqn:E0; [lia|].
    by rewrite Hsa, Hinfo.
Qed.

(** The loop prints at most one warning, as the last thing it does, and
    then it returns a field number. *)
Lemma offsetToFieldNum_loop_log fuel : ∀ layout analyzer ty offset acc log r log',
  loop fuel layout analyzer ty offset acc log = (r, log') →
  log' = log ∨ (log' = log ++ [GEPIntoMiddleOfField] ∧ ∃ k, r = Ok k).
Proof.
  induction fuel as [|fuel IH]; intros layout analyzer ty offset acc log r log'; simpl.
  - destruct (0 <? offset); intros [= <- <-]; by left.
  - destruct (0 <? offset); [|intros [= <- <-]; by left].
    destruct (wrap64 (getTypeAllocSize layout (collapseArray ty)) =? 0);
      [intros [= <- <-]; by left|].
    destruct (collapseArray ty) as [ | | | | |st| ];
      try (destruct (negb _);
           [cbv [mbind M_bind errs_print mret M_ret]; intros [= <- <-]; right; eauto
           |apply IH]).
    destruct analyzer as [sa|]; [|intros [= <- <-]; by left].
    destruct (getStructInfo sa st); [|intros [= <- <-]; by left].
    destruct (structElements st !! _); [apply IH|intros [= <- <-]; by left].
Qed.

Lemma offsetToFieldNum_log fuel f p offset log log' r :
  fieldNumOf fuel f p offset log = (r, log') →
  log' = log ∨ (log' = log ++ [GEPIntoMiddleOfField] ∧ ∃ k, r = Ok k).
Proof.
  unfold offsetToFieldNum. cbv [mbind M_bind assert].
  destruct (isPointerTy (getType p)); [|intros [= <- <-]; by left].
  cbv [mret M_ret]. destruct (dataLayout f); [|intros [= <- <-]; by left].
  destruct (getType p); try (intros [= <- <-]; by left).
  apply offsetToFieldNum_loop_log.
Qed.

(** [offsetToFieldNum] prints nothing or the one warning about an access
    into the middle of a field, in which case it still returns a field
    number; whatever was printed before stays. *)
Theorem offsetToFieldNum_one_warning (fuel : nat) (f : AndersNodeFactory)
    (p : Value) (offset : Z) (log log' : list diag) (r : outcome Z) :
  fieldNumOf fuel f p offset log = (r, log') →
  log' = log ∨ (log' = log ++ [GEPIntoMiddleOfField] ∧ ∃ k, r = Ok k).
Proof. apply offsetToFieldNum_log. Qed.

(** [constGEPtoFieldNum] returns a field number only for a GEP constant
    expression with a pointer operand and constant integer indices, with a
    data layout set, whose underlying object is a pointer; it prints at most
    the one warning. *)
Theorem constGEPtoFieldNum_result (fuel : nat) (f : AndersNodeFactory)
    (expr : Constant) (log log' : list diag) (k : Z) :
  fieldNum fuel f expr log = (Ok k, log') →
  (∃ ty p indexOps layout,
      expr = ConstantExpr GetElementPtr ty (p :: indexOps)
      ∧ dataLayout f = Some layout
      ∧ forallb isConstantInt indexOps = true)
  ∧ isPointerTy (getType (GetUnderlyingObject (VConstant expr))) = true
  ∧ (log' = log ∨ log' = log ++ [GEPIntoMiddleOfField]).
Proof.
  unfold constGEPtoFieldNum.
  destruct expr as [ | | | |opc ty ops| ]; try discriminate.
  destruct opc; try discriminate.
  cbv [mbind M_bind].
  destruct (gepOffset fuel (ConstantExpr GetElementPtr ty ops) (dataLayout f) log)
    as [r0 log0] eqn:Hoff.
  apply getGEPOffset_inv in Hoff as [-> Hres].
  destruct r0 as [o|]; [|discriminate].
  destruct (Hres o eq_refl) as (_ & ty' & p & indexOps & layout & Heq & Hdl & Hidx).
  intros Hf. split; [eauto 8|]. split.
  - destruct (isPointerTy _) eqn:E; [done|].
    unfold offsetToFieldNum in Hf. cbv [mbind M_bind assert] in Hf.
    rewrite E in Hf. discriminate.
  - apply offsetToFieldNum_log in Hf as [->|[-> _]]; auto.
Qed.

(** Within the range of [unsigned], the field number depends on the offset
    only through its rest modulo the allocation size of the array-stripped
    pointee: an access at a positive offset into element [k] of an array of
    structures gets the field number of the same access into element 0. *)
Theorem offsetToFieldNum_periodic (fuel : nat) (f : AndersNodeFactory)
    (layout : DataLayout) (p : Value) (ty : llvmType) (offset k : Z)
    (log : list diag) :
  dataLayout f = Some layout →
  getType p = PointerTy ty →
  0 < offset →
  0 <= k →
  offset + k * wrap64 (getTypeAllocSize layout (collapseArray ty)) < 2 ^ 32 →
  fieldNumOf fuel f p
    (offset + k * wrap64 (getTypeAllocSize layout (collapseArray ty))) log
  = fieldNumOf fuel f p offset log.
Proof.
  intros Hdl Hty Hpos Hk Hrange.
  rewrite !(offsetToFieldNum_pointer _ _ _ _ _ _ _ _ Hdl Hty).
  set (s := wrap64 (getTypeAllocSize layout (collapseArray ty))).
  assert (Hs : 0 <= s) by (unfold s, wrap64; apply Z.mod_pos_bound; lia).
  destruct fuel as [|fuel]; simpl.
  - destruct (0 <? offset) eqn:E1; [|lia].
    destruct (0 <? offset + k * s) eqn:E2; [done|nia].
  - destruct (0 <? offset) eqn:E1; [|lia].
    destruct (0 <? offset + k * s) eqn:E2; [|nia].
    fold s. destruct (s =? 0) eqn:E0; [done|].
    by rewrite Z_mod_plus_full.
Qed.

(** More fuel does not change an outcome that is not [OutOfFuel]. *)
Lemma offsetToFieldNum_loop_fuel fuel : ∀ layout analyzer ty offset acc log r log' extra,
  loop fuel layout analyzer ty offset acc log = (r, log') →
  r ≠ Abort OutOfFuel →
  loop (fuel + extra) layout analyzer ty offset acc log = (r, log').
Proof.
  induction fuel as [|fuel IH];
    intros layout analyzer ty offset acc log r log' extra; simpl.
  - destruct (0 <? offset) eqn:E; [intros [= <- <-]; done|].
    intros [= <- <-] _. destruct extra; simpl; by rewrite E.
  - destruct (0 <? offset); [|done].
    destruct (wrap64 (getTypeAllocSize layout (collapseArray ty)) =? 0); [done|].
    destruct (collapseArray ty) as [ | | | | |st| ];
      try (destruct (negb _); [done|apply IH]).
    destruct analyzer as [sa|]; [|done].
    destruct (getStructInfo sa st); [|done].
    destruct (structElements st !! _); [apply IH|done].
Qed.

(** The loop ends.  If structures do not contain themselves by value, that
    is, if the structures can be ranked so that every element of a structure
    has a smaller nesting depth than the structure, then the loop makes at
    most one iteration per level of nesting and one more: with that much
    fuel or more the outcome is never [OutOfFuel], and it is the same for
    every such amount. *)
Theorem offsetToFieldNum_loop_terminates (rank : N → nat) (fuel : nat)
    (layout : DataLayout) (analyzer : option StructAnalyzer) (ty : llvmType)
    (offset acc : Z) (log : list diag) :
  (∀ st t, t ∈ structElements st → (type_rank rank t <= rank st)%nat) →
  (type_rank rank ty < fuel)%nat →
  (loop fuel layout analyzer ty offset acc log).1 ≠ Abort OutOfFuel
  ∧ loop fuel layout analyzer ty offset acc log
    = loop (S (type_rank rank ty)) layout analyzer ty offset acc log.
Proof.
  intros Hrank.
  assert (Hterm : ∀ n ty offset acc log, (type_rank rank ty < n)%nat →
            (loop n layout analyzer ty offset acc log).1 ≠ Abort OutOfFuel).
  { induction n as [|n IH]; intros ty' offset' acc' log' Hlt; [lia|]. simpl.
    destruct (0 <? offset'); [|done].
    destruct (wrap64 (getTypeAllocSize layout (collapseArray ty')) =? 0); [done|].
    unfold type_rank in Hlt.
    destruct (collapseArray ty') as [ | | | | |st| ] eqn:Hc;
      try (destruct (Z.eqb_spec
             (wrap32 (offset' mod wrap64 (getTypeAllocSize layout (collapseArray ty')))) 0)
             as [Hz|Hz]; rewrite ?Hc in Hz;
           [rewrite Hz; simpl; by rewrite offsetToFieldNum_loop_zero
           |apply Z.eqb_neq in Hz; rewrite Hz; done]).
    destruct analyzer as [sa|]; [|done].
    destruct (getStructInfo sa st); [|done].
    destruct (structElements st !! _) as [elemTy|] eqn:Hel; [|done].
    apply IH. apply list_elem_of_lookup_2 in Hel. specialize (Hrank _ _ Hel). lia. }
  intros Hlt. split; [by apply Hterm|].
  destruct (loop (S (type_rank rank ty)) layout analyzer ty offset acc log)
    as [r log'] eqn:Hr.
  replace fuel with (S (type_rank rank ty) + (fuel - S (type_rank rank ty)))%nat by lia.
  apply offsetToFieldNum_loop_fuel; [done|].
  specialize (Hterm (S (type_rank rank ty)) ty offset acc log).
  rewrite Hr in Hterm. apply Hterm. lia.
Qed.

End MoreFieldNumbers.

(** ** Instances of the further properties on the concrete module *)

Lemma example_factory_wf : factory_wf example_factory.
Proof.
  apply (run_wf [CreateValue 100%N; CreateObject 100%N; CreateObject nullptr]
           (setStructAnalyzer example_analyzer (setDataLayout example_layout initial))
           example_factory [5; 6; 7]).
  - split; [reflexivity|]. split; [apply initial_indexed|].
    intros m e i H. destruct m; simpl in H; by rewrite lookup_empty in H.
  - reflexivity.
  - vm_compute. discriminate.
Qed.

Lemma createValueNode_then_lookup_witness :
  getValueNodeFor example_InvalidIndex example_factory
    (VNonConstant 100%N (PointerTy pairTy)) [] = (Ok 5, [])
  ∧ getValueNodeFor example_InvalidIndex example_factory
      (VConstant example_global) [] = (Ok 5, []).
Proof.
  epose proof (createValueNode_then_lookup example_InvalidIndex 100%N
              [CreateObject 100%N; CreateObject nullptr]
              (setStructAnalyzer example_analyzer (setDataLayout example_layout initial))
              _ example_factory 5 [6; 7] (PointerTy pairTy) []) as H.
  specialize (H ltac:(discriminate) eq_refl eq_refl).
  destruct H as (H1 & H2 & _). split; assumption.
Defined.

Lemma createObjectNode_then_lookup_witness :
  getObjectNodeFor example_InvalidIndex example_elements example_stripPointerCasts
    example_GetUnderlyingObject 0 example_factory
    (VNonConstant 100%N (PointerTy pairTy)) [] = (Ok 6, []).
Proof.
  epose proof (createObjectNode_then_lookup example_InvalidIndex example_elements
              example_stripPointerCasts example_GetUnderlyingObject 100%N
              [CreateObject nullptr]
              (set_valueNodeMap {[ 100%N := 5 ]}
                 (push_back (mkAndersNode VALUE_NODE 5 100%N)
                    (setStructAnalyzer example_analyzer
                       (setDataLayout example_layout initial))))
              _ example_factory 6 [7] 0 (PointerTy pairTy) []) as H.
  specialize (H ltac:(discriminate) eq_refl eq_refl).
  destruct H as (H1 & _). assumption.
Defined.

Lemma createReturnNode_then_lookup_witness :
  getReturnNodeFor example_InvalidIndex
    (set_varargMap {[ 300%N := 6 ]}
       (push_back (mkAndersNode VALUE_NODE 6 300%N)
          (set_returnMap {[ 300%N := 5 ]}
             (push_back (mkAndersNode VALUE_NODE 5 300%N) initial))))
    300%N = 5.
Proof.
  epose proof (createReturnNode_then_lookup example_InvalidIndex 300%N
              [CreateVararg 300%N] initial
              (set_returnMap {[ 300%N := 5 ]}
                 (push_back (mkAndersNode VALUE_NODE 5 300%N) initial))
              _ 5 [6] eq_refl) as [H _].
  apply H. reflexivity.
Defined.


Lemma run_keeps_wf_witness :
  take 5 (nodes (set_objNodeMap {[ 100%N := 6 ]}
                   (push_back (mkAndersNode OBJ_NODE 6 100%N)
                      (set_valueNodeMap {[ 100%N := 5 ]}
                         (push_back (mkAndersNode VALUE_NODE 5 100%N) initial)))))
  = nodes initial.
Proof.
  epose proof (run_keeps_wf [CreateValue 100%N; CreateObject 100%N] _ [5; 6] eq_refl)
    as H.
  destruct H as (H & _).
  - vm_compute. discriminate.
  - exact H.
Defined.

Lemma getValueNodeForConstant_value_node_witness :
  [] = ([] : list diag)
  ∧ (5 = example_InvalidIndex
     ∨ ∃ e, nodes example_factory !! Z.to_nat 5 = Some (mkAndersNode VALUE_NODE 5 e)).
Proof.
  apply (getValueNodeForConstant_value_node example_InvalidIndex example_factory
           (bitcasts [PointerTy i64] example_global) [] [] 5 example_factory_wf).
  reflexivity.
Defined.

Lemma bitcasts_transparent_witness :
  getObjectNodeForConstant example_InvalidIndex example_elements
    example_stripPointerCasts example_GetUnderlyingObject 0 example_factory
    (bitcasts [PointerTy i64; PointerTy (IntegerTy 8)] example_global) []
  = getObjectNodeForConstant example_InvalidIndex example_elements
      example_stripPointerCasts example_GetUnderlyingObject 0 example_factory
      example_global [].
Proof.
  destruct (bitcasts_transparent example_InvalidIndex example_elements
              example_stripPointerCasts example_GetUnderlyingObject 0
              example_factory [PointerTy i64; PointerTy (IntegerTy 8)]
              example_global []) as [_ H].
  - repeat constructor.
  - exact H.
Defined.

Lemma unsupported_constants_fatal_witness :
  getValueNodeForConstant example_InvalidIndex example_factory
    (OtherConstant (PointerTy i64)) []
  = (Abort (Unreachable (Some "Unknown constant pointer!")), []).
Proof.
  destruct (unsupported_constants_fatal example_InvalidIndex example_elements
              example_stripPointerCasts example_GetUnderlyingObject 0
              example_factory (PointerTy i64) [example_global] [] eq_refl)
    as (_ & H & _).
  exact H.
Defined.

Lemma gep_of_sentinel_base_witness :
  getObjectNodeForConstant example_InvalidIndex example_elements
    example_stripPointerCasts example_GetUnderlyingObject 0 initial
    (ConstantExpr GetElementPtr (PointerTy i64)
       [bitcasts [PointerTy pairTy] (ConstantPointerNull (PointerTy (IntegerTy 8)));
        ConstantInt (IntegerTy 32) 0; ConstantInt (IntegerTy 32) 1]) []
  = (Ok 3, []).
Proof.
  destruct (gep_of_sentinel_base example_InvalidIndex example_elements
              example_stripPointerCasts example_GetUnderlyingObject 0 initial
              (PointerTy i64) (PointerTy (IntegerTy 8)) [PointerTy pairTy] []
              [ConstantInt (IntegerTy 32) 0; ConstantInt (IntegerTy 32) 1] []
              eq_refl eq_refl) as [H _].
  - repeat constructor.
  - exact H.
Defined.

Lemma gep_of_registered_global_witness :
  getObjectNodeForConstant example_InvalidIndex example_elements
    example_stripPointerCasts example_GetUnderlyingObject 1 example_factory
    example_gep []
  = (Ok (6 + 1), []).
Proof.
  apply (gep_of_registered_global example_InvalidIndex example_elements
           example_stripPointerCasts example_GetUnderlyingObject 1 example_factory
           100%N 6 1 (PointerTy i64) (PointerTy pairTy)
           [ConstantInt (IntegerTy 32) 0; ConstantInt (IntegerTy 32) 1] [] []
           example_factory_wf); reflexivity.
Defined.

Lemma getGEPOffset_result_witness :
  [] = ([] : list diag)
  ∧ ∀ o, Ok 8 = Ok o →
      0 <= o < 2 ^ 32
      ∧ ∃ ty p indexOps layout,
          example_gep = ConstantExpr GetElementPtr ty (p :: indexOps)
          ∧ Some example_layout = Some layout
          ∧ forallb isConstantInt indexOps = true.
Proof.
  apply (getGEPOffset_result example_stripPointerCasts 1 example_gep
           (Some example_layout) [] [] (Ok 8)).
  reflexivity.
Defined.

Lemma getGEPOffset_nested_witness :
  getGEPOffset example_stripPointerCasts 2
    (ConstantExpr GetElementPtr (PointerTy i64)
       [bitcasts [PointerTy (ArrayTy i64 4)] example_gep; ConstantInt (IntegerTy 32) 1])
    (Some example_layout) []
  = (Ok 24, []).
Proof.
  destruct (getGEPOffset_nested example_stripPointerCasts 1 example_layout
              (PointerTy i64) (bitcasts [PointerTy (ArrayTy i64 4)] example_gep)
              [ConstantInt (IntegerTy 32) 1] [] eq_refl) as [H _].
  apply (H (PointerTy i64)
           [example_global; ConstantInt (IntegerTy 32) 0; ConstantInt (IntegerTy 32) 1]
           8); reflexivity.
Defined.

Lemma offsetToFieldNum_one_warning_witness :
  [GEPIntoMiddleOfField] = ([] : list diag)
  ∨ ([GEPIntoMiddleOfField] = [] ++ [GEPIntoMiddleOfField] ∧ ∃ k, Ok 1 = Ok k).
Proof.
  apply (offsetToFieldNum_one_warning example_elements 2 example_factory
           (VConstant example_global) 9 [] [GEPIntoMiddleOfField] (Ok 1)).
  reflexivity.
Defined.

Lemma constGEPtoFieldNum_result_witness :
  isPointerTy (getType (example_GetUnderlyingObject (VConstant example_gep))) = true.
Proof.
  destruct (constGEPtoFieldNum_result example_elements example_stripPointerCasts
              example_GetUnderlyingObject 1 example_factory example_gep [] [] 1
              eq_refl) as (_ & H & _).
  exact H.
Defined.

(** [@s : [4 x %pair]*]: the second field of element 2 lies at byte offset
    [8 + 2 * 16]. *)
Lemma offsetToFieldNum_periodic_witness :
  offsetToFieldNum example_elements 2 example_factory
    (VConstant (GlobalValue 400%N (PointerTy (ArrayTy pairTy 4)))) 40 []
  = offsetToFieldNum example_elements 2 example_factory
      (VConstant (GlobalValue 400%N (PointerTy (ArrayTy pairTy 4)))) 8 [].
Proof.
  apply (offsetToFieldNum_periodic example_elements 2 example_factory example_layout
           (VConstant (GlobalValue 400%N (PointerTy (ArrayTy pairTy 4))))
           (ArrayTy pairTy 4) 8 2 []);
    [reflexivity|reflexivity|lia|lia|vm_compute; reflexivity].
Defined.

Lemma offsetToFieldNum_loop_terminates_witness :
  (offsetToFieldNum_loop example_elements 5 example_layout (Some example_analyzer)
     pairTy 9 0 []).1 ≠ Abort OutOfFuel.
Proof.
  destruct (offsetToFieldNum_loop_terminates example_elements (λ _, O) 5
              example_layout (Some example_analyzer) pairTy 9 0 []) as [H _].
  - intros st t Hin. unfold example_elements in Hin.
    destruct (st =? pairId)%N.
    + apply list_elem_of_In in Hin. simpl in Hin.
      destruct Hin as [<-|[<-|[]]]; unfold type_rank; simpl; lia.
    + by apply elem_of_nil in Hin.
  - unfold type_rank. simpl. lia.
  - exact H.
Defined.
